(** * PlayerController: keyboard moves, goal lookup and path replay

    A shallow embedding of [src/playerController.py].  Python integers are
    [Z], the maze is a list of rows of cell codes, and the controller object
    is a record that every method receives and returns.  Exceptions and the
    calls into the rendering surface are made explicit: a method run ends with
    a [completion], the controller as the run left it, and the list of
    observable events it produced. *)

From Stdlib Require Import ZArith List Lia Bool String.
Import ListNotations.
Open Scope Z_scope.

(** ** Python values and exceptions *)

Inductive exn : Type :=
| IndexError
| AttributeError.

Inductive result (A : Type) : Type :=
| Ok (a : A)
| Err (e : exn).
Arguments Ok {A} a.
Arguments Err {A} e.

Definition bind {A B : Type} (r : result A) (k : A -> result B) : result B :=
  match r with
  | Ok a => k a
  | Err e => Err e
  end.

Notation "x <- r ;; k" := (bind r (fun x => k))
  (at level 61, r at next level, right associativity).

Definition len {A : Type} (l : list A) : Z := Z.of_nat (List.length l).

(** [l[i]] on a Python list: indices [0 .. len-1] count from the front,
    [-len .. -1] count from the back, anything else raises [IndexError]. *)
Definition subscript {A : Type} (l : list A) (i : Z) : result A :=
  let pos := if i <? 0 then len l + i else i in
  if (0 <=? pos) && (pos <? len l) then
    match nth_error l (Z.to_nat pos) with
    | Some a => Ok a
    | None => Err IndexError
    end
  else Err IndexError.

(** ** Data model *)

Definition Cell : Type := (Z * Z)%type.
Definition Path : Type := list Cell.
Definition Grid : Type := list (list Z).

Record Maze : Type := { current_level : Grid }.

Module Player.

Record t : Type := mk { x : Z; y : Z }.

End Player.

(** The solver classes live in modules that are not part of this file's
    source ([dfs], [bfs], [dijkstra] and the A* module); the controller only
    calls the methods below, so a solver is the record of those methods,
    taken as functions of their arguments.  [get_path] returns what the preceding search call cached, hence it takes
    that call's arguments. *)
Record DFS : Type := {
  dfs : Grid -> Cell -> Cell -> bool;
  dfs_get_path : Grid -> Cell -> Cell -> Path
}.

Record BFS : Type := {
  bfs : Grid -> Cell -> Cell -> bool;
  bfs_get_path : Grid -> Cell -> Cell -> Path
}.

Record Dijkstra : Type := {
  dijkstra_find_shortest_path : Cell -> Cell -> option Path
}.

Record AStar : Type := {
  astar_find_goal_position : Maze -> option Cell;
  astar_find_shortest_path : Maze -> option Path
}.

Record PlayerController : Type := {
  player : Player.t;
  maze : Maze;
  player_position : Cell;
  dfs_solver : option DFS;
  bfs_solver : option BFS;
  dijkstra_solver : option Dijkstra;
  astar_solver : option AStar
}.

(** The key-state map read by [move_player]. *)
Record Keys : Type := {
  K_UP : bool;
  K_DOWN : bool;
  K_LEFT : bool;
  K_RIGHT : bool
}.

(** What a run shows to the outside: text printed, calls into the rendering
    surface, and the assignment of a new pixel position during replay. *)
Inductive event : Type :=
| Print (msg : string)
| DrawMaze
| DrawPath (path : Path)
| SetPos (new_x new_y : Z)
| Flip
| Delay (ms : Z).

Inductive completion : Type :=
| Returned
| Raised (e : exn)
| Diverged.

Record Run : Type := {
  outcome : completion;
  final : PlayerController;
  trace : list event
}.

Definition returned (s : PlayerController) : Run :=
  {| outcome := Returned; final := s; trace := [] |}.

Definition raised (e : exn) (s : PlayerController) : Run :=
  {| outcome := Raised e; final := s; trace := [] |}.

Definition emit (evs : list event) (r : Run) : Run :=
  {| outcome := outcome r; final := final r; trace := evs ++ trace r |}.

(** Sequencing of two runs: the second starts where the first returned. *)
Definition andthen (r : Run) (k : PlayerController -> Run) : Run :=
  match outcome r with
  | Returned => emit (trace r) (k (final r))
  | _ => r
  end.

(** Field updates. *)
Definition with_player_position (s : PlayerController) (c : Cell) : PlayerController :=
  {| player := player s; maze := maze s; player_position := c;
     dfs_solver := dfs_solver s; bfs_solver := bfs_solver s;
     dijkstra_solver := dijkstra_solver s; astar_solver := astar_solver s |}.

Definition with_player_xy (s : PlayerController) (new_x new_y : Z) : PlayerController :=
  {| player := Player.mk new_x new_y; maze := maze s;
     player_position := player_position s;
     dfs_solver := dfs_solver s; bfs_solver := bfs_solver s;
     dijkstra_solver := dijkstra_solver s; astar_solver := astar_solver s |}.

Definition set_dfs_solver (s : PlayerController) (v : option DFS) : PlayerController :=
  {| player := player s; maze := maze s; player_position := player_position s;
     dfs_solver := v; bfs_solver := bfs_solver s;
     dijkstra_solver := dijkstra_solver s; astar_solver := astar_solver s |}.

Definition set_bfs_solver (s : PlayerController) (v : option BFS) : PlayerController :=
  {| player := player s; maze := maze s; player_position := player_position s;
     dfs_solver := dfs_solver s; bfs_solver := v;
     dijkstra_solver := dijkstra_solver s; astar_solver := astar_solver s |}.

Definition set_dijkstra_solver (s : PlayerController) (v : option Dijkstra) : PlayerController :=
  {| player := player s; maze := maze s; player_position := player_position s;
     dfs_solver := dfs_solver s; bfs_solver := bfs_solver s;
     dijkstra_solver := v; astar_solver := astar_solver s |}.

Definition set_astar_solver (s : PlayerController) (v : option AStar) : PlayerController :=
  {| player := player s; maze := maze s; player_position := player_position s;
     dfs_solver := dfs_solver s; bfs_solver := bfs_solver s;
     dijkstra_solver := dijkstra_solver s; astar_solver := v |}.

(** [__init__]: the two solvers built by [DFS()] and [BFS()] are passed in. *)
Definition init (p : Player.t) (m : Maze) (d : DFS) (b : BFS) : PlayerController :=
  {| player := p; maze := m; player_position := (1, 1);
     dfs_solver := Some d; bfs_solver := Some b;
     dijkstra_solver := None; astar_solver := None |}.

(** ** Queries on the maze *)

(** [is_valid_position]: the chained comparisons short-circuit, so
    [len(current_level[0])] and the cell itself are only read once the
    earlier tests passed. *)
Definition is_valid_position (m : Maze) (position : Cell) : result bool :=
  let '(x, y) := position in
  if (0 <=? x) && (x <? len (current_level m)) then
    row0 <- subscript (current_level m) 0 ;;
    if (0 <=? y) && (y <? len row0) then
      row <- subscript (current_level m) x ;;
      code <- subscript row y ;;
      Ok (negb (code =? 1))
    else Ok false
  else Ok false.

(** [find_goal_position]: the inner loop over [range(len(current_level[0]))],
    then the outer loop over [range(len(current_level))]. *)
Fixpoint scan_row (level : Grid) (i : nat) (js : list nat) : result (option Cell) :=
  match js with
  | [] => Ok None
  | j :: js' =>
      row <- subscript level (Z.of_nat i) ;;
      code <- subscript row (Z.of_nat j) ;;
      if code =? 3 then Ok (Some (Z.of_nat i, Z.of_nat j))
      else scan_row level i js'
  end.

Fixpoint scan_rows (level : Grid) (rows : list nat) : result (option Cell) :=
  match rows with
  | [] => Ok None
  | i :: rows' =>
      row0 <- subscript level 0 ;;
      found <- scan_row level i (seq 0 (List.length row0)) ;;
      match found with
      | Some c => Ok (Some c)
      | None => scan_rows level rows'
      end
  end.

Definition find_goal_position (m : Maze) : result (option Cell) :=
  scan_rows (current_level m) (seq 0 (List.length (current_level m))).

Section Controller.

(** [TILE_SIZE] comes from [config], which is not part of this file's
    source: a pixel count, positive wherever a property below depends on the
    division.  Python's [//] is floor division, as is [Z.div]. *)
Variable TILE_SIZE : Z.

(** Truth value of the maze object tested by [not self.maze]; the [Maze]
    class is defined elsewhere. *)
Variable maze_truthy : Maze -> bool.

Definition pixel_of_cell (c : Cell) : Z * Z :=
  let '(row, col) := c in (col * TILE_SIZE, row * TILE_SIZE).

Definition cell_of_pixel (px : Z * Z) : Cell :=
  let '(x, y) := px in (y / TILE_SIZE, x / TILE_SIZE).

Definition check_collision (m : Maze) (x y : Z) : result bool :=
  let row := y / TILE_SIZE in
  let column := x / TILE_SIZE in
  r <- subscript (current_level m) row ;;
  code <- subscript r column ;;
  Ok (negb (code =? 1)).

(** ** Keyboard moves *)

(** Lines 48-53 of [move_player]: the two guarded assignments. *)
Definition commit_move (s : PlayerController) (new_x new_y : Z) (new_position : Cell) : Run :=
  match is_valid_position (maze s) new_position with
  | Err e => raised e s
  | Ok valid =>
      let s1 := if valid then with_player_position s new_position else s in
      match check_collision (maze s1) new_x new_y with
      | Err e => raised e s1
      | Ok free =>
          returned (if free then with_player_xy s1 new_x new_y else s1)
      end
  end.

(** Lines 30-46: the if/elif chain selects the prospective pixel position
    and cell, or nothing when no direction key is down. *)
Definition prospective (s : PlayerController) (direction : Keys) : option (Z * Z * Cell) :=
  let new_x := Player.x (player s) in
  let new_y := Player.y (player s) in
  let '(r, c) := player_position s in
  if K_UP direction then Some (new_x, new_y - TILE_SIZE, (r - 1, c))
  else if K_DOWN direction then Some (new_x, new_y + TILE_SIZE, (r + 1, c))
  else if K_LEFT direction then Some (new_x - TILE_SIZE, new_y, (r, c - 1))
  else if K_RIGHT direction then Some (new_x + TILE_SIZE, new_y, (r, c + 1))
  else None.

Definition move_player (s : PlayerController) (direction : Keys) : Run :=
  match prospective s direction with
  | Some (new_x, new_y, new_position) => commit_move s new_x new_y new_position
  | None => returned s
  end.

Definition reset_player_position (s : PlayerController) : PlayerController :=
  with_player_xy s TILE_SIZE TILE_SIZE.

(** ** Path replay *)

Definition direction_toward (target current : Z) : Z :=
  if target >? current then 1 else if target <? current then -1 else 0.

(** The [while] loop of [follow_path] for one target.  [fuel] bounds the
    number of iterations; a run that uses it up is [Diverged]. *)
Fixpoint approach (fuel : nat) (path : Path) (target_x target_y : Z)
    (s : PlayerController) : Run :=
  let px := Player.x (player s) in
  let py := Player.y (player s) in
  if negb (px =? target_x) || negb (py =? target_y) then
    match fuel with
    | O => {| outcome := Diverged; final := s; trace := [] |}
    | S fuel' =>
        let direction_x := direction_toward target_x px in
        let direction_y := direction_toward target_y py in
        let new_x := px + direction_x * TILE_SIZE in
        let new_y := py + direction_y * TILE_SIZE in
        match (r <- subscript (current_level (maze s)) (new_y / TILE_SIZE) ;;
               subscript r (new_x / TILE_SIZE)) with
        | Err e => raised e s
        | Ok code =>
            if negb (code =? 1) then
              emit [DrawMaze; DrawPath path; SetPos new_x new_y; Flip; Delay 100]
                   (approach fuel' path target_x target_y (with_player_xy s new_x new_y))
            else approach fuel' path target_x target_y s
        end
    end
  else returned s.

(** The [for] loop: [path] is the whole path (drawn at every step), [todo]
    the positions still to visit. *)
Fixpoint follow_from (fuel : nat) (path todo : Path) (s : PlayerController) : Run :=
  match todo with
  | [] => returned s
  | position :: todo' =>
      let '(goal_y, goal_x) := position in
      let target_y := goal_y * TILE_SIZE in
      let target_x := goal_x * TILE_SIZE in
      andthen (approach fuel path target_x target_y s)
              (follow_from fuel path todo')
  end.

Definition follow_path (fuel : nat) (path : Path) (s : PlayerController) : Run :=
  follow_from fuel path path s.

(** ** Moving to the goal *)

Definition start_position (s : PlayerController) : Cell :=
  (Player.y (player s) / TILE_SIZE, Player.x (player s) / TILE_SIZE).

Definition truthy_path (p : option Path) : option Path :=
  match p with
  | Some (c :: rest) => Some (c :: rest)
  | _ => None
  end.

Definition move_to_goal_dfs (fuel : nat) (s : PlayerController) : Run :=
  let start := start_position s in
  match find_goal_position (maze s) with
  | Err e => raised e s
  | Ok None => returned s
  | Ok (Some goal_position) =>
      match dfs_solver s with
      | None => raised AttributeError s
      | Some solver =>
          if dfs solver (current_level (maze s)) start goal_position then
            follow_path fuel
              (dfs_get_path solver (current_level (maze s)) start goal_position) s
          else returned s
      end
  end.

Definition move_to_goal_bfs (fuel : nat) (s : PlayerController) : Run :=
  let start := start_position s in
  match find_goal_position (maze s) with
  | Err e => raised e s
  | Ok None => returned s
  | Ok (Some goal_position) =>
      match bfs_solver s with
      | None => raised AttributeError s
      | Some solver =>
          if bfs solver (current_level (maze s)) start goal_position then
            follow_path fuel
              (bfs_get_path solver (current_level (maze s)) start goal_position) s
          else returned s
      end
  end.

Definition move_to_goal_dijkstra (fuel : nat) (s : PlayerController) : Run :=
  match dijkstra_solver s with
  | None => returned s
  | Some solver =>
      let start := start_position s in
      match find_goal_position (maze s) with
      | Err e => raised e s
      | Ok None => returned s
      | Ok (Some goal_position) =>
          match truthy_path (dijkstra_find_shortest_path solver start goal_position) with
          | Some path => follow_path fuel path s
          | None => returned s
          end
      end
  end.

Definition move_to_goal_astar (fuel : nat) (s : PlayerController) : Run :=
  match astar_solver s with
  | None =>
      emit [Print "A* solver not initialized. Please call set_astar_solver first."]
           (returned s)
  | Some solver =>
      if negb (maze_truthy (maze s)) then
        emit [Print "Maze not initialized."] (returned s)
      else
        match astar_find_goal_position solver (maze s) with
        | None => returned s
        | Some _ =>
            match truthy_path (astar_find_shortest_path solver (maze s)) with
            | Some path => follow_path fuel path s
            | None => returned s
            end
        end
  end.

End Controller.

(** * Vocabulary of the properties *)

(** ** Grids *)

(** The cell code at row [i], column [j], when there is one. *)
Definition code_at (g : Grid) (i j : nat) : option Z :=
  match nth_error g i with
  | Some row => nth_error row j
  | None => None
  end.

(** Every row is as long as the first one. *)
Definition rectangular (g : Grid) : Prop :=
  forall row, In row g -> List.length row = List.length (hd [] g).

Definition in_bounds (g : Grid) (r c : Z) : Prop :=
  0 <= r < len g /\ 0 <= c < len (hd [] g).

Definition no_goal (g : Grid) : Prop := forall i j, code_at g i j <> Some 3.

(** [(i', j')] comes before [(i, j)] in row-major order. *)
Definition before (i' j' i j : nat) : Prop :=
  (i' < i \/ (i' = i /\ j' < j))%nat.

(** What the scan finds: the first goal-marked cell in row-major order, or
    nothing when no cell carries the marker. *)
Definition first_goal (g : Grid) (r : option Cell) : Prop :=
  match r with
  | Some c =>
      exists i j, c = (Z.of_nat i, Z.of_nat j) /\ code_at g i j = Some 3 /\
                  forall i' j', before i' j' i j -> code_at g i' j' <> Some 3
  | None => forall i j, code_at g i j <> Some 3
  end.

(** ** Runs and traces *)

Definition xy (s : PlayerController) : Z * Z :=
  (Player.x (player s), Player.y (player s)).

(** The pixel positions assigned during a run, in order. *)
Fixpoint moves (tr : list event) : list (Z * Z) :=
  match tr with
  | [] => []
  | SetPos a b :: tr' => (a, b) :: moves tr'
  | _ :: tr' => moves tr'
  end.

(** [R] relates every element of [a :: l] to its successor. *)
Fixpoint chain {A : Type} (R : A -> A -> Prop) (a : A) (l : list A) : Prop :=
  match l with
  | [] => True
  | b :: l' => R a b /\ chain R b l'
  end.

(** Where a walk that starts at [a] and visits [l] ends. *)
Definition endpoint {A : Type} (a : A) (l : list A) : A :=
  fold_left (fun _ b => b) l a.

Definition diverged (s : PlayerController) : Run :=
  {| outcome := Diverged; final := s; trace := [] |}.

(** One replay step from [p] to [q] along [path]: for some cell of the path
    whose pixel position [p] has not reached, each coordinate moves by the
    sign of its distance to that position times the tile size. *)
Definition toward_step (tile : Z) (path : Path) (p q : Z * Z) : Prop :=
  exists goal_y goal_x,
    In (goal_y, goal_x) path /\
    (fst p <> goal_x * tile \/ snd p <> goal_y * tile) /\
    q = (fst p + Z.sgn (goal_x * tile - fst p) * tile,
         snd p + Z.sgn (goal_y * tile - snd p) * tile).

(** What a run of the replay leaves behind: its assignments form a walk of
    replay steps from the start, and the agent stands at the end of it. *)
Definition walks (tile : Z) (path : Path) (s : PlayerController) (r : Run) : Prop :=
  chain (toward_step tile path) (xy s) (moves (trace r)) /\
  xy (final r) = endpoint (xy s) (moves (trace r)).

(** ** Sample keys, mazes and controllers *)

Definition only_up : Keys :=
  {| K_UP := true; K_DOWN := false; K_LEFT := false; K_RIGHT := false |}.

Definition only_down : Keys :=
  {| K_UP := false; K_DOWN := true; K_LEFT := false; K_RIGHT := false |}.

Definition only_left : Keys :=
  {| K_UP := false; K_DOWN := false; K_LEFT := true; K_RIGHT := false |}.

Definition only_right : Keys :=
  {| K_UP := false; K_DOWN := false; K_LEFT := false; K_RIGHT := true |}.

Definition all_keys : Keys :=
  {| K_UP := true; K_DOWN := true; K_LEFT := true; K_RIGHT := true |}.

Definition open3 : Maze :=
  {| current_level := [[0; 0; 0]; [0; 0; 0]; [0; 0; 0]] |}.

Definition walled : Maze :=
  {| current_level := [[0; 0; 0; 0; 0]; [0; 0; 1; 0; 0]; [0; 0; 0; 0; 0]] |}.

Definition goal_maze : Maze :=
  {| current_level := [[0; 1; 0; 0; 0; 0]; [0; 0; 0; 1; 0; 0]; [0; 0; 0; 0; 0; 3]] |}.

(** Open inside, walls all around. *)
Definition ring : Maze :=
  {| current_level := [[1; 1; 1; 1]; [1; 0; 0; 1]; [1; 0; 0; 1]; [1; 1; 1; 1]] |}.

(** A Dijkstra solver that always hands back [path]. *)
Definition fixed_dijkstra (path : Path) : Dijkstra :=
  {| dijkstra_find_shortest_path := fun _ _ => Some path |}.

Definition idle_dfs : DFS :=
  {| dfs := fun _ _ _ => false; dfs_get_path := fun _ _ _ => [] |}.

Definition idle_bfs : BFS :=
  {| bfs := fun _ _ _ => false; bfs_get_path := fun _ _ _ => [] |}.

(** A freshly constructed controller whose player stands on the pixel
    position of cell [c]. *)
Definition standing (tile : Z) (m : Maze) (c : Cell) : PlayerController :=
  init (Player.mk (snd c * tile) (fst c * tile)) m idle_dfs idle_bfs.

(** The same, after the cached cell was brought in line with the pixels. *)
Definition synced (tile : Z) (m : Maze) (c : Cell) : PlayerController :=
  with_player_position (standing tile m c) c.

(** ** Statements that the code is tested against *)

Inductive Strategy : Type := ByDFS | ByBFS | ByDijkstra | ByAStar.

Definition solver_unset (st : Strategy) (s : PlayerController) : Prop :=
  match st with
  | ByDFS => dfs_solver s = None
  | ByBFS => bfs_solver s = None
  | ByDijkstra => dijkstra_solver s = None
  | ByAStar => astar_solver s = None
  end.

Definition move_to_goal (tile : Z) (truthy : Maze -> bool) (st : Strategy)
    (fuel : nat) (s : PlayerController) : Run :=
  match st with
  | ByDFS => move_to_goal_dfs tile fuel s
  | ByBFS => move_to_goal_bfs tile fuel s
  | ByDijkstra => move_to_goal_dijkstra tile fuel s
  | ByAStar => move_to_goal_astar tile truthy fuel s
  end.

Definition reports (r : Run) : Prop := exists msg, In (Print msg) (trace r).

Definition stays (s : PlayerController) (r : Run) : Prop :=
  player (final r) = player s /\ moves (trace r) = [].

(** "A move is committed only if both checks pass; nothing is mutated
    otherwise." *)
Definition commits_only_when_both_pass (tile : Z) : Prop :=
  forall s d nx ny np,
    prospective tile s d = Some (nx, ny, np) ->
    final (move_player tile s d) <> s ->
    is_valid_position (maze s) np = Ok true /\
    check_collision tile (maze s) nx ny = Ok true.

(** "Every committed replay step changes exactly one axis by exactly one
    tile size." *)
Definition axis_step (tile : Z) (p q : Z * Z) : Prop :=
  (fst q = fst p /\ Z.abs (snd q - snd p) = tile) \/
  (snd q = snd p /\ Z.abs (fst q - fst p) = tile).

Definition replay_never_diagonal (tile : Z) : Prop :=
  forall fuel path s,
    chain (axis_step tile) (xy s) (moves (trace (follow_path tile fuel path s))).

(** "With the solver unset, or with no goal on the grid, the operation
    reports it and performs no movement." *)
Definition unset_or_goalless_is_reported (tile : Z) (truthy : Maze -> bool) : Prop :=
  forall st fuel s,
    (solver_unset st s ->
     reports (move_to_goal tile truthy st fuel s) /\
     stays s (move_to_goal tile truthy st fuel s)) /\
    (no_goal (current_level (maze s)) ->
     reports (move_to_goal tile truthy st fuel s) /\
     stays s (move_to_goal tile truthy st fuel s)).

(** ** Drawing the path *)

(** One call of [pygame.draw.rect(screen, color, (left, top, width, height))]. *)
Record Rect : Type := {
  rect_color : Z * Z * Z;
  rect_left : Z;
  rect_top : Z;
  rect_width : Z;
  rect_height : Z
}.

(** [draw_path]: one green rectangle per position of the path, in order. *)
Definition draw_path (tile : Z) (path : Path) : list Rect :=
  map (fun position : Cell =>
         {| rect_color := (0, 255, 0);
            rect_left := snd position * tile;
            rect_top := fst position * tile;
            rect_width := tile;
            rect_height := tile |})
      path.

(** ** Walkable cells, synchronised controllers, key sequences *)

(** In bounds and not a wall. *)
Definition walkable (g : Grid) (c : Cell) : Prop :=
  in_bounds g (fst c) (snd c) /\
  exists code, code_at g (Z.to_nat (fst c)) (Z.to_nat (snd c)) = Some code /\ code <> 1.

(** Every cell on the rim of the grid is a wall. *)
Definition border_walled (g : Grid) : Prop :=
  forall r c,
    in_bounds g r c ->
    r = 0 \/ r = len g - 1 \/ c = 0 \/ c = len (hd [] g) - 1 ->
    code_at g (Z.to_nat r) (Z.to_nat c) = Some 1.

(** The pixel position is the one of the cached cell, and that cell is
    walkable. *)
Definition in_sync (tile : Z) (s : PlayerController) : Prop :=
  xy s = (snd (player_position s) * tile, fst (player_position s) * tile) /\
  walkable (current_level (maze s)) (player_position s).

(** The controller after a sequence of [move_player] calls, one per key
    state, as a game loop issues them; a call that raises ends the sequence. *)
Fixpoint play (tile : Z) (s : PlayerController) (inputs : list Keys) : Run :=
  match inputs with
  | [] => returned s
  | direction :: inputs' =>
      andthen (move_player tile s direction) (fun s' => play tile s' inputs')
  end.

(** Everything but the player's pixels is the same. *)
Definition same_but_player (s s' : PlayerController) : Prop :=
  player_position s' = player_position s /\
  maze s' = maze s /\
  dfs_solver s' = dfs_solver s /\
  bfs_solver s' = bfs_solver s /\
  dijkstra_solver s' = dijkstra_solver s /\
  astar_solver s' = astar_solver s.

(** Successive cells that differ by at most one row and one column. *)
Definition neighbours (a b : Cell) : Prop :=
  Z.abs (fst b - fst a) <= 1 /\ Z.abs (snd b - snd a) <= 1.

(** The cells of [path] that differ from their predecessor, [c] being the
    predecessor of the first. *)
Fixpoint hops (c : Cell) (path : Path) : Path :=
  match path with
  | [] => []
  | d :: path' =>
      if (fst c =? fst d) && (snd c =? snd d) then hops d path'
      else d :: hops d path'
  end.

(** The unit steps of the four directions, and no step. *)
Definition unit_or_null (dr dc : Z) : Prop :=
  (dr = 0 /\ dc = 0) \/ (Z.abs dr = 1 /\ dc = 0) \/ (dr = 0 /\ Z.abs dc = 1).

(** * Properties *)

(** ** Subscripts *)

Lemma subscript_of_nat {A : Type} (l : list A) (i : nat) :
  subscript l (Z.of_nat i) =
  match nth_error l i with
  | Some a => Ok a
  | None => Err IndexError
  end.
Proof.
  unfold subscript, len.
  destruct (Z.ltb_spec (Z.of_nat i) 0) as [Hneg | _]; [lia |].
  rewrite Nat2Z.id.
  destruct (nth_error l i) eqn:Hnth.
  - assert (Hlt : (i < List.length l)%nat)
      by (apply nth_error_Some; congruence).
    destruct (Z.leb_spec 0 (Z.of_nat i)); [| lia].
    destruct (Z.ltb_spec (Z.of_nat i) (Z.of_nat (List.length l))); [| lia].
    reflexivity.
  - destruct (_ && _); reflexivity.
Qed.

Lemma subscript_in_range {A : Type} (l : list A) (i : Z) :
  0 <= i < len l -> exists a, subscript l i = Ok a /\ nth_error l (Z.to_nat i) = Some a.
Proof.
  intros Hi. unfold len in Hi.
  destruct (nth_error l (Z.to_nat i)) eqn:Hnth.
  - exists a. split; [| reflexivity].
    replace i with (Z.of_nat (Z.to_nat i)) by lia.
    rewrite subscript_of_nat, Hnth. reflexivity.
  - apply nth_error_None in Hnth. lia.
Qed.

Lemma subscript_too_large {A : Type} (l : list A) (i : Z) :
  len l <= i -> subscript l i = Err IndexError.
Proof.
  intros Hi. unfold subscript. unfold len in *.
  destruct (Z.ltb_spec i 0); [lia |].
  destruct (Z.ltb_spec i (Z.of_nat (List.length l))); [lia |].
  rewrite andb_false_r. reflexivity.
Qed.

Lemma subscript_wraps {A : Type} (l : list A) (i : Z) :
  - len l <= i < 0 -> subscript l i = subscript l (len l + i).
Proof.
  intros Hi. unfold subscript.
  destruct (Z.ltb_spec i 0); [| lia].
  destruct (Z.ltb_spec (len l + i) 0); [lia |].
  reflexivity.
Qed.

(** ** Bounds *)

Lemma subscript_first (g : Grid) :
  0 < len g -> subscript g 0 = Ok (hd [] g).
Proof.
  intros Hg. destruct g as [| row0 g']; [unfold len in Hg; simpl in Hg; lia |].
  change 0 with (Z.of_nat 0). rewrite subscript_of_nat. reflexivity.
Qed.

Lemma lookup_in_bounds (g : Grid) (r c : Z) :
  rectangular g -> in_bounds g r c ->
  exists row code,
    subscript g r = Ok row /\ subscript row c = Ok code /\
    code_at g (Z.to_nat r) (Z.to_nat c) = Some code.
Proof.
  intros Hrect [Hr Hc].
  destruct (subscript_in_range g r Hr) as (row & Hsub & Hnth).
  assert (Hlen : len row = len (hd [] g)).
  { unfold len. f_equal. apply Hrect. exact (nth_error_In _ _ Hnth). }
  destruct (subscript_in_range row c ltac:(lia)) as (code & Hsub' & Hnth').
  exists row, code. repeat split; try assumption.
  unfold code_at. rewrite Hnth. exact Hnth'.
Qed.

Lemma is_valid_position_out_of_bounds (m : Maze) (x y : Z) :
  ~ in_bounds (current_level m) x y ->
  is_valid_position m (x, y) = Ok false.
Proof.
  intros Hout. unfold is_valid_position, in_bounds in *.
  destruct (Z.leb_spec 0 x); simpl; [| reflexivity].
  destruct (Z.ltb_spec x (len (current_level m))); simpl; [| reflexivity].
  rewrite subscript_first by lia. simpl.
  destruct (Z.leb_spec 0 y); simpl; [| reflexivity].
  destruct (Z.ltb_spec y (len (hd [] (current_level m)))); simpl; [| reflexivity].
  exfalso. apply Hout. lia.
Qed.

Lemma is_valid_position_in_bounds (m : Maze) (x y : Z) :
  rectangular (current_level m) -> in_bounds (current_level m) x y ->
  exists code,
    code_at (current_level m) (Z.to_nat x) (Z.to_nat y) = Some code /\
    is_valid_position m (x, y) = Ok (negb (code =? 1)).
Proof.
  intros Hrect Hin.
  destruct (lookup_in_bounds _ _ _ Hrect Hin) as (row & code & Hrow & Hcode & Hat).
  exists code. split; [exact Hat |].
  destruct Hin as [Hx Hy]. unfold is_valid_position.
  destruct (Z.leb_spec 0 x); [| lia].
  destruct (Z.ltb_spec x (len (current_level m))); [| lia]. simpl.
  rewrite subscript_first by lia. simpl.
  destruct (Z.leb_spec 0 y); [| lia].
  destruct (Z.ltb_spec y (len (hd [] (current_level m)))); [| lia]. simpl.
  rewrite Hrow. simpl. rewrite Hcode. reflexivity.
Qed.

Lemma is_valid_position_total (m : Maze) (c : Cell) :
  rectangular (current_level m) -> exists b, is_valid_position m c = Ok b.
Proof.
  intros Hrect. destruct c as [x y].
  assert (Hdec : in_bounds (current_level m) x y \/ ~ in_bounds (current_level m) x y)
    by (unfold in_bounds; lia).
  destruct Hdec as [Hin | Hout].
  - destruct (is_valid_position_in_bounds m x y Hrect Hin) as (code & _ & Hv). eauto.
  - exists false. apply is_valid_position_out_of_bounds. exact Hout.
Qed.

(** ** Goal lookup *)

Lemma scan_row_spec (level : Grid) (i : nat) (row : list Z) (n a : nat) :
  nth_error level i = Some row ->
  (a + n <= List.length row)%nat ->
  match scan_row level i (seq a n) with
  | Ok (Some c) =>
      exists j, c = (Z.of_nat i, Z.of_nat j) /\ (a <= j < a + n)%nat /\
                nth_error row j = Some 3 /\
                forall j', (a <= j' < j)%nat -> nth_error row j' <> Some 3
  | Ok None => forall j, (a <= j < a + n)%nat -> nth_error row j <> Some 3
  | Err _ => False
  end.
Proof.
  intros Hrow. revert a.
  induction n as [| n IH]; intros a Hlen; simpl.
  - intros j Hj. lia.
  - rewrite subscript_of_nat, Hrow. simpl.
    rewrite subscript_of_nat.
    destruct (nth_error row a) as [code |] eqn:Hcode.
    2: { apply nth_error_None in Hcode. lia. }
    simpl. destruct (Z.eqb_spec code 3) as [-> | Hne].
    + exists a. repeat split; try lia. exact Hcode.
    + specialize (IH (S a) ltac:(lia)).
      destruct (scan_row level i (seq (S a) n)) as [[c |] | e]; [| | exact IH].
      * destruct IH as (j & -> & Hj & H3 & Hmin).
        exists j. repeat split; try lia; [exact H3 |].
        intros j' Hj'. destruct (Nat.eq_dec j' a) as [-> | Hja].
        -- rewrite Hcode. congruence.
        -- apply Hmin. lia.
      * intros j Hj. destruct (Nat.eq_dec j a) as [-> | Hja].
        -- rewrite Hcode. congruence.
        -- apply IH. lia.
Qed.

Lemma scan_rows_spec (g : Grid) (n a : nat) :
  rectangular g ->
  (a + n <= List.length g)%nat ->
  match scan_rows g (seq a n) with
  | Ok (Some c) =>
      exists i j, c = (Z.of_nat i, Z.of_nat j) /\ (a <= i < a + n)%nat /\
                  code_at g i j = Some 3 /\
                  forall i' j', (a <= i')%nat ->
                                (i' < i \/ (i' = i /\ j' < j))%nat ->
                                code_at g i' j' <> Some 3
  | Ok None => forall i j, (a <= i < a + n)%nat -> code_at g i j <> Some 3
  | Err _ => False
  end.
Proof.
  intros Hrect. revert a.
  induction n as [| n IH]; intros a Hlen; simpl.
  - intros i j Hi. lia.
  - destruct g as [| row0 g'] eqn:Hg; [simpl in Hlen; lia |].
    rewrite <- Hg in *.
    assert (H0 : subscript g 0 = Ok row0)
      by (rewrite Hg; change 0 with (Z.of_nat 0); rewrite subscript_of_nat; reflexivity).
    rewrite H0. simpl.
    destruct (nth_error g a) as [row |] eqn:Hrow.
    2: { apply nth_error_None in Hrow. lia. }
    assert (Hsame : List.length row = List.length row0).
    { rewrite (Hrect row (nth_error_In _ _ Hrow)). rewrite Hg. reflexivity. }
    pose proof (scan_row_spec g a row (List.length row0) 0 Hrow ltac:(lia)) as Hscan.
    destruct (scan_row g a (seq 0 (List.length row0))) as [[c |] | e];
      [| | exact Hscan]; simpl.
    + destruct Hscan as (j & -> & Hj & H3 & Hmin).
      exists a, j. repeat split; try lia.
      * unfold code_at. rewrite Hrow. exact H3.
      * intros i' j' Hi' [Hlt | [-> Hlt]]; [lia |].
        unfold code_at. rewrite Hrow. apply Hmin. lia.
    + assert (Hnone : forall j, code_at g a j <> Some 3).
      { intros j. unfold code_at. rewrite Hrow.
        destruct (Nat.lt_ge_cases j (List.length row0)) as [Hj | Hj].
        - apply Hscan. lia.
        - assert (Hout : nth_error row j = None)
            by (apply nth_error_None; lia).
          rewrite Hout. discriminate. }
      specialize (IH (S a) ltac:(lia)).
      destruct (scan_rows g (seq (S a) n)) as [[c |] | e]; [| | exact IH].
      * destruct IH as (i & j & -> & Hi & H3 & Hmin).
        exists i, j. repeat split; try lia; [exact H3 |].
        intros i' j' Hi' Hlex. destruct (Nat.eq_dec i' a) as [-> | Hia].
        -- apply Hnone.
        -- apply Hmin; lia.
      * intros i j Hi. destruct (Nat.eq_dec i a) as [-> | Hia].
        -- apply Hnone.
        -- apply IH. lia.
Qed.

Lemma find_goal_position_first (m : Maze) :
  rectangular (current_level m) ->
  exists r, find_goal_position m = Ok r /\ first_goal (current_level m) r.
Proof.
  intros Hrect. unfold find_goal_position.
  pose proof (scan_rows_spec (current_level m) (List.length (current_level m)) 0
                Hrect ltac:(lia)) as Hscan.
  destruct (scan_rows (current_level m) (seq 0 (List.length (current_level m))))
    as [[c |] | e]; [| | contradiction].
  - exists (Some c). split; [reflexivity |].
    destruct Hscan as (i & j & -> & Hi & H3 & Hmin).
    exists i, j. repeat split; [exact H3 |].
    intros i' j' Hlex. apply Hmin; [lia | exact Hlex].
  - exists None. split; [reflexivity |].
    intros i j. destruct (Nat.lt_ge_cases i (List.length (current_level m))) as [Hi | Hi].
    + apply Hscan. lia.
    + unfold code_at.
      assert (Hout : nth_error (current_level m) i = None)
        by (apply nth_error_None; lia).
      rewrite Hout. discriminate.
Qed.

Lemma first_goal_unique (g : Grid) (i j i' j' : nat) :
  code_at g i j = Some 3 ->
  (forall a b, before a b i j -> code_at g a b <> Some 3) ->
  code_at g i' j' = Some 3 ->
  (forall a b, before a b i' j' -> code_at g a b <> Some 3) ->
  i = i' /\ j = j'.
Proof.
  intros H3 Hmin H3' Hmin'.
  destruct (lt_eq_lt_dec i i') as [[Hlt | Heq] | Hgt].
  - exfalso. apply (Hmin' i j); [left; exact Hlt | exact H3].
  - subst i'. split; [reflexivity |].
    destruct (lt_eq_lt_dec j j') as [[Hlt | Heq] | Hgt]; [| exact Heq |].
    + exfalso. apply (Hmin' i j); [right; split; [reflexivity | exact Hlt] | exact H3].
    + exfalso. apply (Hmin i j'); [right; split; [reflexivity | exact Hgt] | exact H3'].
  - exfalso. apply (Hmin i' j'); [left; exact Hgt | exact H3'].
Qed.

(** C6: on a rectangular grid [find_goal_position] never raises; it returns
    [(i, j)] exactly when cell [(i, j)] carries the goal marker 3 and no cell
    before it in row-major order does (the lexicographically smallest marked
    cell), and it returns none exactly when no cell carries the marker.  In
    particular, when the only marker is at row 2, column 5, it returns
    [(2, 5)]. *)
Theorem find_goal_position_row_major (m : Maze) :
  rectangular (current_level m) ->
  (exists r, find_goal_position m = Ok r) /\
  (forall c, find_goal_position m = Ok (Some c) ->
             exists i j, c = (Z.of_nat i, Z.of_nat j)) /\
  (forall i j,
      find_goal_position m = Ok (Some (Z.of_nat i, Z.of_nat j)) <->
      code_at (current_level m) i j = Some 3 /\
      forall i' j', before i' j' i j -> code_at (current_level m) i' j' <> Some 3) /\
  (find_goal_position m = Ok None <->
   forall i j, code_at (current_level m) i j <> Some 3) /\
  (code_at (current_level m) 2 5 = Some 3 ->
   (forall i j, code_at (current_level m) i j = Some 3 -> i = 2%nat /\ j = 5%nat) ->
   find_goal_position m = Ok (Some (2, 5))).
Proof.
  intros Hrect.
  destruct (find_goal_position_first m Hrect) as (r & Hr & Hfirst).
  assert (Hiff : forall i j,
      find_goal_position m = Ok (Some (Z.of_nat i, Z.of_nat j)) <->
      code_at (current_level m) i j = Some 3 /\
      forall i' j', before i' j' i j -> code_at (current_level m) i' j' <> Some 3).
  { intros i j. rewrite Hr. split.
    - intros Heq. injection Heq as ->.
      destruct Hfirst as (i0 & j0 & Hc & H3 & Hmin).
      injection Hc as Hi Hj.
      apply Nat2Z.inj in Hi, Hj. subst i0 j0. split; assumption.
    - intros [H3 Hmin]. destruct r as [c |].
      + destruct Hfirst as (i0 & j0 & -> & H3' & Hmin').
        destruct (first_goal_unique _ _ _ _ _ H3 Hmin H3' Hmin') as [-> ->].
        reflexivity.
      + exfalso. exact (Hfirst i j H3). }
  split; [exists r; exact Hr |].
  split.
  { intros c Hc. rewrite Hr in Hc. injection Hc as Hrc. subst r.
    destruct Hfirst as (i & j & -> & _). exists i, j. reflexivity. }
  split; [exact Hiff |].
  split.
  { rewrite Hr. split.
    - intros Heq. injection Heq as ->. exact Hfirst.
    - intros Hnone. destruct r as [c |]; [| reflexivity].
      destruct Hfirst as (i & j & _ & H3 & _). exfalso. exact (Hnone i j H3). }
  intros H3 Honly.
  apply (Hiff 2%nat 5%nat). split; [exact H3 |].
  intros i' j' Hlex H3'. destruct (Honly i' j' H3') as [-> ->].
  unfold before in Hlex. lia.
Qed.

(** ** Traces of replay *)

Lemma moves_app (l1 l2 : list event) : moves (l1 ++ l2) = moves l1 ++ moves l2.
Proof.
  induction l1 as [| e l1 IH]; [reflexivity |].
  destruct e; simpl; rewrite IH; reflexivity.
Qed.

Lemma endpoint_app {A : Type} (l1 l2 : list A) (a : A) :
  endpoint a (l1 ++ l2) = endpoint (endpoint a l1) l2.
Proof. unfold endpoint. apply fold_left_app. Qed.

Lemma chain_app {A : Type} (R : A -> A -> Prop) (l1 l2 : list A) (a : A) :
  chain R a l1 -> chain R (endpoint a l1) l2 -> chain R a (l1 ++ l2).
Proof.
  revert a. induction l1 as [| b l1 IH]; intros a H1 H2; [exact H2 |].
  destruct H1 as [Hab H1]. split; [exact Hab |].
  apply IH; [exact H1 | exact H2].
Qed.

Section Properties.

Variable T : Z.
Hypothesis T_pos : 0 < T.
Variable truthy : Maze -> bool.

Lemma div_tile (k : Z) : k * T / T = k.
Proof. apply Z.div_mul. lia. Qed.

Lemma div_tile_self : T / T = 1.
Proof. apply Z.div_same. lia. Qed.

(** ** Cell and pixel coordinates *)

(** C7: a cell converted to its pixel position ([x = col * TILE_SIZE],
    [y = row * TILE_SIZE], as [follow_path] computes its target) and back by
    integer division by the tile size (as [move_to_goal_dfs] derives the start
    cell) is the original cell.  This holds for every cell, so in particular
    for every in-bounds one, and a player standing on the pixel position of a
    cell has that cell as start position. *)
Theorem cell_pixel_roundtrip (c : Cell) :
  cell_of_pixel T (pixel_of_cell T c) = c /\
  forall s, start_position T
              (with_player_xy s (fst (pixel_of_cell T c)) (snd (pixel_of_cell T c))) = c.
Proof.
  destruct c as [row col].
  unfold cell_of_pixel, pixel_of_cell, start_position. simpl.
  rewrite !div_tile. split; [reflexivity | intros s; reflexivity].
Qed.

(** ** Reset *)

(** C8: [reset_player_position] sets the pixel position to
    [(TILE_SIZE, TILE_SIZE)] whatever the state was, and a second reset
    changes nothing: both calls leave the same spawn pixel position. *)
Theorem reset_player_position_spawn (s : PlayerController) :
  player (reset_player_position T s) = Player.mk T T /\
  player (reset_player_position T (reset_player_position T s)) =
    player (reset_player_position T s) /\
  reset_player_position T (reset_player_position T s) = reset_player_position T s.
Proof.
  unfold reset_player_position, with_player_xy. simpl. repeat split.
Qed.

(** C9: [reset_player_position] writes [player.x] and [player.y] only; the
    cached cell [player_position], the maze and the solvers are as before.
    Hence whenever the cached cell was not (1, 1), after the reset it differs
    from the cell under the spawn pixel position. *)
Theorem reset_player_position_frame (s : PlayerController) :
  player_position (reset_player_position T s) = player_position s /\
  maze (reset_player_position T s) = maze s /\
  dfs_solver (reset_player_position T s) = dfs_solver s /\
  bfs_solver (reset_player_position T s) = bfs_solver s /\
  dijkstra_solver (reset_player_position T s) = dijkstra_solver s /\
  astar_solver (reset_player_position T s) = astar_solver s /\
  (player_position s <> (1, 1) ->
   player_position (reset_player_position T s) <>
     start_position T (reset_player_position T s)).
Proof.
  repeat split.
  unfold start_position, reset_player_position. simpl.
  rewrite div_tile_self. intros Hne Heq. apply Hne. exact Heq.
Qed.

(** ** Key priority *)

(** C10: [move_player] looks at the keys in the order up, down, left, right
    and applies the first one that is pressed as if it were the only one
    pressed; with no key pressed it returns with the controller untouched. *)
Theorem move_player_priority (s : PlayerController) (d : Keys) :
  (K_UP d = true -> move_player T s d = move_player T s only_up) /\
  (K_UP d = false -> K_DOWN d = true ->
   move_player T s d = move_player T s only_down) /\
  (K_UP d = false -> K_DOWN d = false -> K_LEFT d = true ->
   move_player T s d = move_player T s only_left) /\
  (K_UP d = false -> K_DOWN d = false -> K_LEFT d = false -> K_RIGHT d = true ->
   move_player T s d = move_player T s only_right) /\
  (K_UP d = false -> K_DOWN d = false -> K_LEFT d = false -> K_RIGHT d = false ->
   move_player T s d = returned s).
Proof.
  unfold move_player, prospective. destruct (player_position s) as [r c].
  repeat split; intros; simpl;
    repeat match goal with H : _ d = _ |- _ => rewrite H; clear H end;
    reflexivity.
Qed.

(** ** The two guards of [move_player] *)

Lemma check_collision_in_bounds (m : Maze) (px py : Z) :
  rectangular (current_level m) ->
  in_bounds (current_level m) (py / T) (px / T) ->
  exists code,
    code_at (current_level m) (Z.to_nat (py / T)) (Z.to_nat (px / T)) = Some code /\
    check_collision T m px py = Ok (negb (code =? 1)).
Proof.
  intros Hrect Hin.
  destruct (lookup_in_bounds _ _ _ Hrect Hin) as (row & code & Hrow & Hcode & Hat).
  exists code. split; [exact Hat |].
  unfold check_collision. rewrite Hrow. simpl. rewrite Hcode. reflexivity.
Qed.

Lemma prospective_moves (s : PlayerController) (d : Keys) (nx ny : Z) (np : Cell) :
  prospective T s d = Some (nx, ny, np) ->
  np <> player_position s /\ Player.mk nx ny <> player s.
Proof.
  unfold prospective. destruct (player_position s) as [r c].
  destruct (player s) as [px py]. simpl.
  destruct (K_UP d); [| destruct (K_DOWN d); [| destruct (K_LEFT d);
    [| destruct (K_RIGHT d); [| discriminate]]]];
    intros Heq; injection Heq as <- <- <-;
    split; intros Habs; injection Habs; lia.
Qed.

(** C1, as the code has it: each guard protects its own representation.
    On a rectangular grid, with the prospective pixel-derived cell inside the
    grid, [move_player] returns normally; it replaces the cached cell by the
    prospective cell exactly when [is_valid_position] accepts that cell, and
    it replaces the pixel position by the prospective one exactly when
    [check_collision] finds no wall under it.  The two decisions do not
    depend on each other, and nothing else is written. *)
Theorem move_player_independent_guards
    (s : PlayerController) (d : Keys) (nx ny : Z) (np : Cell) :
  rectangular (current_level (maze s)) ->
  prospective T s d = Some (nx, ny, np) ->
  in_bounds (current_level (maze s)) (ny / T) (nx / T) ->
  exists valid free,
    is_valid_position (maze s) np = Ok valid /\
    check_collision T (maze s) nx ny = Ok free /\
    move_player T s d =
      returned (let s1 := if valid then with_player_position s np else s in
                if free then with_player_xy s1 nx ny else s1) /\
    (player_position (final (move_player T s d)) <> player_position s <->
     valid = true) /\
    (player (final (move_player T s d)) <> player s <-> free = true).
Proof.
  intros Hrect Hpro Hin.
  destruct (is_valid_position_total (maze s) np Hrect) as (valid & Hvalid).
  destruct (check_collision_in_bounds (maze s) nx ny Hrect Hin) as (code & _ & Hfree).
  destruct (prospective_moves s d nx ny np Hpro) as [Hnp Hxy].
  exists valid, (negb (code =? 1)).
  assert (Hrun : move_player T s d =
      returned (let s1 := if valid then with_player_position s np else s in
                if negb (code =? 1) then with_player_xy s1 nx ny else s1)).
  { unfold move_player. rewrite Hpro. unfold commit_move. rewrite Hvalid.
    assert (Hmaze : maze (if valid then with_player_position s np else s) = maze s)
      by (destruct valid; reflexivity).
    rewrite Hmaze, Hfree. reflexivity. }
  repeat split; try assumption; rewrite Hrun;
    destruct valid, (negb (code =? 1)); simpl; intros H;
    try reflexivity; try congruence; try (exfalso; apply H; reflexivity).
Qed.

(** ** Replay steps *)

Lemma approach_eq (fuel : nat) (path : Path) (tx ty : Z) (s : PlayerController) :
  approach T fuel path tx ty s =
  let px := Player.x (player s) in
  let py := Player.y (player s) in
  if negb (px =? tx) || negb (py =? ty) then
    match fuel with
    | O => {| outcome := Diverged; final := s; trace := [] |}
    | S fuel' =>
        let new_x := px + direction_toward tx px * T in
        let new_y := py + direction_toward ty py * T in
        match (r <- subscript (current_level (maze s)) (new_y / T) ;;
               subscript r (new_x / T)) with
        | Err e => raised e s
        | Ok code =>
            if negb (code =? 1) then
              emit [DrawMaze; DrawPath path; SetPos new_x new_y; Flip; Delay 100]
                   (approach T fuel' path tx ty (with_player_xy s new_x new_y))
            else approach T fuel' path tx ty s
        end
    end
  else returned s.
Proof. destruct fuel; reflexivity. Qed.

Lemma direction_toward_sgn (target current : Z) :
  direction_toward target current = Z.sgn (target - current).
Proof.
  unfold direction_toward.
  destruct (Z.gtb_spec target current); [symmetry; apply Z.sgn_pos; lia |].
  destruct (Z.ltb_spec target current); [symmetry; apply Z.sgn_neg; lia |].
  symmetry. apply Z.sgn_null_iff. lia.
Qed.

Lemma approach_walks (fuel : nat) (cells path : Path) (goal_y goal_x : Z)
    (s : PlayerController) :
  In (goal_y, goal_x) cells ->
  walks T cells s (approach T fuel path (goal_x * T) (goal_y * T) s).
Proof.
  intros Hin. revert s.
  induction fuel as [| fuel IH]; intros s; rewrite approach_eq; cbv zeta.
  - destruct (negb _ || negb _); split; simpl; auto.
  - destruct (negb (Player.x (player s) =? goal_x * T)
              || negb (Player.y (player s) =? goal_y * T))
      eqn:Hcond; [| split; simpl; auto].
    destruct (r <- subscript (current_level (maze s)) _ ;; subscript r _)
      as [code | e]; [| split; simpl; auto].
    destruct (negb (code =? 1)); [| apply IH].
    set (nx := Player.x (player s)
               + direction_toward (goal_x * T) (Player.x (player s)) * T).
    set (ny := Player.y (player s)
               + direction_toward (goal_y * T) (Player.y (player s)) * T).
    destruct (IH (with_player_xy s nx ny)) as [Hchain Hend].
    split; simpl.
    + split; [| exact Hchain].
      exists goal_y, goal_x. split; [exact Hin |]. split.
      * apply orb_true_iff in Hcond.
        destruct Hcond as [H | H]; apply negb_true_iff, Z.eqb_neq in H; auto.
      * unfold nx, ny. rewrite !direction_toward_sgn. reflexivity.
    + exact Hend.
Qed.

Lemma follow_from_walks (fuel : nat) (cells path todo : Path) (s : PlayerController) :
  incl todo cells ->
  walks T cells s (follow_from T fuel path todo s).
Proof.
  revert s. induction todo as [| [goal_y goal_x] todo IH]; intros s Hincl; simpl.
  - split; simpl; auto.
  - pose proof (approach_walks fuel cells path goal_y goal_x s
                  (Hincl _ (in_eq _ _))) as [Hc He].
    unfold andthen.
    destruct (outcome (approach T fuel path (goal_x * T) (goal_y * T) s));
      try (split; assumption).
    destruct (IH (final (approach T fuel path (goal_x * T) (goal_y * T) s))
                 (fun c Hc' => Hincl c (in_cons _ _ _ Hc')))
      as [Hc' He'].
    split; simpl; rewrite moves_app.
    + apply chain_app; [exact Hc |]. rewrite <- He. exact Hc'.
    + rewrite endpoint_app, <- He. exact He'.
Qed.

(** C2, as the code has it: in every run of [follow_path] (whatever the
    fuel, the path and the start), each committed step heads for a cell of
    the path that is not yet reached and moves each pixel coordinate by the
    sign of its distance to that cell's pixel position times one tile size.
    So a coordinate that is aligned stays, one that is not moves by exactly
    one tile size, and a step taken with both coordinates misaligned changes
    both.  The agent ends at the last committed position. *)
Theorem follow_path_steps (fuel : nat) (path : Path) (s : PlayerController) :
  chain (toward_step T path) (xy s) (moves (trace (follow_path T fuel path s))) /\
  xy (final (follow_path T fuel path s)) =
    endpoint (xy s) (moves (trace (follow_path T fuel path s))).
Proof. exact (follow_from_walks fuel path path path s (incl_refl path)). Qed.

(** ** Tile arithmetic *)

Lemma tile_eqb (a b : Z) : (a * T =? b * T) = (a =? b).
Proof.
  destruct (Z.eqb_spec a b) as [-> | Hne]; [apply Z.eqb_refl |].
  apply Z.eqb_neq. nia.
Qed.

Lemma tile_toward (a b : Z) : direction_toward (a * T) (b * T) = Z.sgn (a - b).
Proof.
  rewrite direction_toward_sgn.
  replace (a * T - b * T) with ((a - b) * T) by lia.
  rewrite Z.sgn_mul, (Z.sgn_pos T) by exact T_pos. lia.
Qed.

Lemma tile_step (a d : Z) : (a * T + d * T) / T = a + d.
Proof. rewrite <- Z.mul_add_distr_r. apply div_tile. Qed.

Lemma tile_back (a : Z) : (a * T - T) / T = a - 1.
Proof.
  replace (a * T - T) with ((a - 1) * T) by lia. apply div_tile.
Qed.

(** ** One iteration of the replay loop, in tile coordinates *)

Section Iteration.

Variables (fuel : nat) (path : Path) (s : PlayerController).
Variables a b c d : Z.
Hypothesis Hxy : xy s = (a * T, b * T).

Let a' := a + Z.sgn (c - a).
Let b' := b + Z.sgn (d - b).

Lemma approach_tile_done :
  a = c -> b = d -> approach T fuel path (c * T) (d * T) s = returned s.
Proof using Hxy.
  intros -> ->. rewrite approach_eq. cbv zeta.
  unfold xy in Hxy. injection Hxy as Hx Hy. rewrite Hx, Hy, !Z.eqb_refl.
  reflexivity.
Qed.

Lemma approach_tile_unfold :
  a <> c \/ b <> d ->
  approach T (S fuel) path (c * T) (d * T) s =
  match (r <- subscript (current_level (maze s)) b' ;; subscript r a') with
  | Err e => raised e s
  | Ok code =>
      if negb (code =? 1) then
        emit [DrawMaze; DrawPath path; SetPos (a' * T) (b' * T); Flip; Delay 100]
             (approach T fuel path (c * T) (d * T)
                       (with_player_xy s (a' * T) (b' * T)))
      else approach T fuel path (c * T) (d * T) s
  end.
Proof using Hxy T_pos.
  intros Hne. rewrite approach_eq. cbv zeta.
  unfold xy in Hxy. injection Hxy as Hx Hy. rewrite Hx, Hy.
  rewrite !tile_eqb, !tile_toward, !tile_step, <- !Z.mul_add_distr_r.
  assert (Hcond : negb (a =? c) || negb (b =? d) = true).
  { destruct (Z.eqb_spec a c), (Z.eqb_spec b d); simpl; try reflexivity. lia. }
  rewrite Hcond. reflexivity.
Qed.

Lemma approach_tile_commit (code : Z) :
  a <> c \/ b <> d ->
  (r <- subscript (current_level (maze s)) b' ;; subscript r a') = Ok code ->
  code <> 1 ->
  approach T (S fuel) path (c * T) (d * T) s =
  emit [DrawMaze; DrawPath path; SetPos (a' * T) (b' * T); Flip; Delay 100]
       (approach T fuel path (c * T) (d * T) (with_player_xy s (a' * T) (b' * T))).
Proof using Hxy T_pos.
  intros Hne Hlook Hcode. rewrite approach_tile_unfold by exact Hne.
  rewrite Hlook. apply Z.eqb_neq in Hcode. rewrite Hcode. reflexivity.
Qed.

Lemma approach_tile_skip :
  a <> c \/ b <> d ->
  (r <- subscript (current_level (maze s)) b' ;; subscript r a') = Ok 1 ->
  approach T (S fuel) path (c * T) (d * T) s =
  approach T fuel path (c * T) (d * T) s.
Proof using Hxy T_pos.
  intros Hne Hlook. rewrite approach_tile_unfold by exact Hne.
  rewrite Hlook. reflexivity.
Qed.

Lemma approach_tile_raise (e : exn) :
  a <> c \/ b <> d ->
  (r <- subscript (current_level (maze s)) b' ;; subscript r a') = Err e ->
  approach T (S fuel) path (c * T) (d * T) s = raised e s.
Proof using Hxy T_pos.
  intros Hne Hlook. rewrite approach_tile_unfold by exact Hne.
  rewrite Hlook. reflexivity.
Qed.

End Iteration.

(** ** A blocked replay *)

Lemma approach_blocked (fuel : nat) :
  approach T fuel [(1, 3)] (3 * T) (1 * T) (standing T walled (1, 1)) =
  diverged (standing T walled (1, 1)).
Proof.
  induction fuel as [| fuel IH]; rewrite approach_eq; cbv zeta;
    change (Player.x (player (standing T walled (1, 1)))) with (1 * T);
    change (Player.y (player (standing T walled (1, 1)))) with (1 * T);
    rewrite !tile_eqb.
  - reflexivity.
  - rewrite !tile_toward, !tile_step.
    change (maze (standing T walled (1, 1))) with walled.
    simpl. exact IH.
Qed.

(** C3 fails on the code: with a wall between the agent and the target the
    loop of [follow_path] never ends.  In the maze [walled], from the pixel
    position of cell (1, 1) and with the path [(1, 3)], the only step the
    loop ever tries leads into the wall at (1, 2); it is skipped, nothing
    changes, and the run is still looping after any number of iterations. *)
Theorem follow_path_blocked_diverges (fuel : nat) :
  follow_path T fuel [(1, 3)] (standing T walled (1, 1)) =
  diverged (standing T walled (1, 1)).
Proof.
  unfold follow_path, follow_from, andthen.
  rewrite approach_blocked. reflexivity.
Qed.

(** ** Lookups outside the grid *)

Lemma check_collision_wraps (m : Maze) (x y : Z) :
  - len (current_level m) <= y / T < 0 ->
  check_collision T m x y = check_collision T m x (y + len (current_level m) * T).
Proof.
  intros Hrow. unfold check_collision.
  rewrite Z.div_add by lia.
  rewrite (subscript_wraps (current_level m) (y / T) Hrow).
  f_equal. f_equal. lia.
Qed.

Lemma check_collision_raises (m : Maze) (x y : Z) :
  len (current_level m) <= y / T ->
  check_collision T m x y = Err IndexError.
Proof.
  intros Hrow. unfold check_collision.
  rewrite (subscript_too_large (current_level m) (y / T) Hrow). reflexivity.
Qed.

(** C4 fails on the code: only [is_valid_position] tests the bounds.  In the
    3 x 3 open maze, the cell (-1, 1) is rejected by [is_valid_position], but
    [check_collision] at the pixels of that cell reads row -1, that is the
    last row, and accepts; at the pixels of cell (1, 3) it raises
    [IndexError].  So [move_player] with the up key, from the top row, moves
    the pixel position above the grid while the cached cell stays; and the
    check of [follow_path] raises [IndexError] for a target below the grid and
    commits a step above the grid for a target there. *)
Theorem lookups_outside_grid (fuel : nat) :
  is_valid_position open3 (-1, 1) = Ok false /\
  check_collision T open3 (1 * T) (-1 * T) = Ok true /\
  check_collision T open3 (3 * T) (1 * T) = Err IndexError /\
  move_player T (synced T open3 (0, 1)) only_up =
    returned (with_player_xy (synced T open3 (0, 1)) (1 * T) (0 * T - T)) /\
  follow_path T (S fuel) [(3, 1)] (standing T open3 (2, 1)) =
    raised IndexError (standing T open3 (2, 1)) /\
  follow_path T (S fuel) [(-1, 1)] (standing T open3 (0, 1)) =
    emit [DrawMaze; DrawPath [(-1, 1)]; SetPos (1 * T) (-1 * T); Flip; Delay 100]
         (returned (with_player_xy (standing T open3 (0, 1)) (1 * T) (-1 * T))).
Proof.
  split; [reflexivity |].
  split; [unfold check_collision; rewrite !div_tile; reflexivity |].
  split; [unfold check_collision; rewrite !div_tile; reflexivity |].
  split.
  { unfold move_player, prospective, commit_move.
    change (player_position (synced T open3 (0, 1))) with (0, 1).
    change (K_UP only_up) with true. cbv iota beta.
    change (maze (synced T open3 (0, 1))) with open3.
    change (is_valid_position open3 (0 - 1, 1)) with (@Ok bool false).
    cbv iota beta zeta.
    change (maze (synced T open3 (0, 1))) with open3.
    unfold check_collision.
    change (Player.x (player (synced T open3 (0, 1)))) with (1 * T).
    change (Player.y (player (synced T open3 (0, 1)))) with (0 * T).
    rewrite tile_back, div_tile. reflexivity. }
  split.
  { unfold follow_path, follow_from, andthen.
    rewrite (approach_tile_raise fuel [(3, 1)] (standing T open3 (2, 1)) 1 2 1 3
               eq_refl IndexError);
      [reflexivity | lia | reflexivity]. }
  unfold follow_path, follow_from, andthen.
  rewrite (approach_tile_commit fuel [(-1, 1)] (standing T open3 (0, 1)) 1 0 1 (-1)
             eq_refl 0);
    [| lia | reflexivity | lia].
  cbv zeta. change (1 + Z.sgn (1 - 1)) with 1. change (0 + Z.sgn (-1 - 0)) with (-1).
  rewrite (approach_tile_done fuel [(-1, 1)]
             (with_player_xy (standing T open3 (0, 1)) (1 * T) (-1 * T))
             1 (-1) 1 (-1) eq_refl);
    reflexivity.
Qed.

(** ** Moving to the goal without a solver or without a goal *)

Lemma find_goal_position_none (m : Maze) :
  rectangular (current_level m) -> no_goal (current_level m) ->
  find_goal_position m = Ok None.
Proof.
  intros Hrect Hnone.
  destruct (find_goal_position_first m Hrect) as ([c |] & Hr & Hfirst);
    [| exact Hr].
  destruct Hfirst as (i & j & _ & H3 & _). exfalso. exact (Hnone i j H3).
Qed.

(** C5, as the code has it.  With the Dijkstra solver unset,
    [move_to_goal_dijkstra] returns at once: no movement, nothing printed.
    With the A* solver unset, [move_to_goal_astar] prints the one line
    "A* solver not initialized. Please call set_astar_solver first." and
    returns without movement.  On a rectangular grid without a goal marker,
    the DFS, BFS and Dijkstra operations return without movement and print
    nothing.  The A* operation asks its solver for the goal; when the solver
    finds none, it returns without movement and prints nothing about the
    goal: nothing at all when the maze object is truthy, and otherwise only
    "Maze not initialized.", which it prints before asking. *)
Theorem move_to_goal_guards (fuel : nat) (s : PlayerController) :
  (dijkstra_solver s = None -> move_to_goal_dijkstra T fuel s = returned s) /\
  (astar_solver s = None ->
   move_to_goal_astar T truthy fuel s =
   emit [Print "A* solver not initialized. Please call set_astar_solver first."]
        (returned s)) /\
  (rectangular (current_level (maze s)) -> no_goal (current_level (maze s)) ->
   move_to_goal_dfs T fuel s = returned s /\
   move_to_goal_bfs T fuel s = returned s /\
   move_to_goal_dijkstra T fuel s = returned s) /\
  (forall solver,
      astar_solver s = Some solver ->
      astar_find_goal_position solver (maze s) = None ->
      move_to_goal_astar T truthy fuel s =
      if truthy (maze s) then returned s
      else emit [Print "Maze not initialized."] (returned s)).
Proof.
  split; [intros Hnone; unfold move_to_goal_dijkstra; rewrite Hnone; reflexivity |].
  split.
  { intros Hnone. unfold move_to_goal_astar. rewrite Hnone. reflexivity. }
  split.
  { intros Hrect Hgoal.
    pose proof (find_goal_position_none (maze s) Hrect Hgoal) as Hfind.
    unfold move_to_goal_dfs, move_to_goal_bfs, move_to_goal_dijkstra.
    rewrite Hfind. repeat split.
    destruct (dijkstra_solver s); reflexivity. }
  intros solver Hsome Hfind. unfold move_to_goal_astar.
  rewrite Hsome, Hfind. destruct (truthy (maze s)); reflexivity.
Qed.

(** ** Runs that show where the statements above fail *)

Lemma desync_move :
  move_player T (standing T walled (1, 3)) only_left =
    returned (with_player_position (standing T walled (1, 3)) (1, 0)) /\
  prospective T (standing T walled (1, 3)) only_left =
    Some (3 * T - T, 1 * T, (1, 0)) /\
  check_collision T walled (3 * T - T) (1 * T) = Ok false.
Proof.
  assert (Hcheck : check_collision T walled (3 * T - T) (1 * T) = Ok false)
    by (unfold check_collision; rewrite tile_back, div_tile; reflexivity).
  split; [| split; [reflexivity | exact Hcheck]].
  unfold move_player.
  change (prospective T (standing T walled (1, 3)) only_left)
    with (Some (3 * T - T, 1 * T, (1, 0))).
  unfold commit_move.
  change (is_valid_position (maze (standing T walled (1, 3))) (1, 0))
    with (@Ok bool true).
  cbv iota beta zeta.
  change (maze (with_player_position (standing T walled (1, 3)) (1, 0))) with walled.
  rewrite Hcheck. reflexivity.
Qed.

Lemma diagonal_replay :
  follow_path T 1 [(2, 2)] (standing T open3 (1, 1)) =
  emit [DrawMaze; DrawPath [(2, 2)]; SetPos (2 * T) (2 * T); Flip; Delay 100]
       (returned (with_player_xy (standing T open3 (1, 1)) (2 * T) (2 * T))).
Proof.
  unfold follow_path, follow_from, andthen.
  rewrite (approach_tile_commit 0 [(2, 2)] (standing T open3 (1, 1)) 1 1 2 2
             eq_refl 0); [| lia | reflexivity | lia].
  cbv zeta. change (1 + Z.sgn (2 - 1)) with 2.
  rewrite (approach_tile_done 0 [(2, 2)]
             (with_player_xy (standing T open3 (1, 1)) (2 * T) (2 * T))
             2 2 2 2 eq_refl); reflexivity.
Qed.

End Properties.

(** * Further properties *)

(** ** Walkability *)

Lemma is_valid_position_decides (m : Maze) (c : Cell) :
  rectangular (current_level m) ->
  (is_valid_position m c = Ok true <-> walkable (current_level m) c) /\
  (is_valid_position m c = Ok false <-> ~ walkable (current_level m) c).
Proof.
  intros Hrect. destruct c as [x y]. unfold walkable. cbn [fst snd].
  assert (Hdec : in_bounds (current_level m) x y \/ ~ in_bounds (current_level m) x y)
    by (unfold in_bounds; lia).
  destruct Hdec as [Hin | Hout].
  - destruct (is_valid_position_in_bounds m x y Hrect Hin) as (code & Hat & Hv).
    rewrite Hv.
    destruct (Z.eqb_spec code 1) as [-> | Hne]; simpl; split; split.
    + discriminate.
    + intros (_ & code' & Hat' & Hne'). congruence.
    + intros _ (_ & code' & Hat' & Hne'). congruence.
    + reflexivity.
    + intros _. split; [exact Hin | exists code; split; assumption].
    + reflexivity.
    + discriminate.
    + intros Hnot. exfalso. apply Hnot.
      split; [exact Hin | exists code; split; assumption].
  - rewrite (is_valid_position_out_of_bounds m x y Hout). split; split.
    + discriminate.
    + intros [Hin _]. contradiction.
    + intros _ [Hin _]. contradiction.
    + reflexivity.
Qed.

(** X1: on a rectangular grid [is_valid_position] never raises and decides
    walkability: it returns [True] exactly for the cells that are inside the
    grid and do not hold the wall code, and [False] for all others, among
    them every cell with a negative or too large coordinate. *)
Theorem is_valid_position_walkable (m : Maze) (c : Cell) :
  rectangular (current_level m) ->
  (is_valid_position m c = Ok true <-> walkable (current_level m) c) /\
  (is_valid_position m c = Ok false <-> ~ walkable (current_level m) c).
Proof. exact (is_valid_position_decides m c). Qed.

(** ** Goal lookup on any grid *)

Lemma scan_row_sound (level : Grid) (i : nat) (js : list nat) (c : Cell) :
  scan_row level i js = Ok (Some c) ->
  exists j, In j js /\ c = (Z.of_nat i, Z.of_nat j) /\ code_at level i j = Some 3.
Proof.
  induction js as [| j js IH]; simpl; [discriminate |].
  rewrite subscript_of_nat. unfold code_at.
  destruct (nth_error level i) as [row |] eqn:Hrow; simpl; [| discriminate].
  rewrite subscript_of_nat.
  destruct (nth_error row j) as [code |] eqn:Hcode; simpl; [| discriminate].
  destruct (Z.eqb_spec code 3) as [-> | Hne].
  - intros Heq. injection Heq as <-. exists j.
    split; [left; reflexivity | split; [reflexivity | exact Hcode]].
  - intros Hscan. destruct (IH Hscan) as (j' & Hin & Hc & Hat).
    exists j'. split; [right; exact Hin | split; [exact Hc |]].
    unfold code_at in Hat. rewrite Hrow in Hat. exact Hat.
Qed.

Lemma scan_rows_sound (level : Grid) (rows : list nat) (c : Cell) :
  scan_rows level rows = Ok (Some c) ->
  exists i j, In i rows /\ (j < List.length (hd [] level))%nat /\
              c = (Z.of_nat i, Z.of_nat j) /\ code_at level i j = Some 3.
Proof.
  induction rows as [| i rows IH]; simpl; [discriminate |].
  destruct level as [| row0 rest] eqn:Hlevel; [discriminate |].
  rewrite <- Hlevel in *.
  assert (H0 : subscript level 0 = Ok row0)
    by (rewrite Hlevel; change 0 with (Z.of_nat 0); rewrite subscript_of_nat;
        reflexivity).
  rewrite H0. simpl.
  destruct (scan_row level i (seq 0 (List.length row0))) as [[c' |] | e] eqn:Hrow;
    simpl; [| | discriminate].
  - intros Heq. injection Heq as <-.
    destruct (scan_row_sound _ _ _ _ Hrow) as (j & Hin & Hc & Hat).
    exists i, j. apply in_seq in Hin.
    repeat split; try assumption; [left; reflexivity | rewrite Hlevel; simpl; lia].
  - intros Hscan. destruct (IH Hscan) as (i' & j & Hin & Hj & Hc & Hat).
    exists i', j. repeat split; try assumption. right. exact Hin.
Qed.

(** X2: whatever the grid, also with rows of different lengths, a cell
    returned by [find_goal_position] lies inside the grid, carries the goal
    marker 3, and is accepted by [is_valid_position]. *)
Theorem find_goal_position_sound (m : Maze) (c : Cell) :
  find_goal_position m = Ok (Some c) ->
  in_bounds (current_level m) (fst c) (snd c) /\
  code_at (current_level m) (Z.to_nat (fst c)) (Z.to_nat (snd c)) = Some 3 /\
  is_valid_position m c = Ok true.
Proof.
  unfold find_goal_position. intros Hscan.
  destruct (scan_rows_sound _ _ _ Hscan) as (i & j & Hi & Hj & -> & Hat).
  apply in_seq in Hi. simpl fst. simpl snd. rewrite !Nat2Z.id.
  assert (Hin : in_bounds (current_level m) (Z.of_nat i) (Z.of_nat j))
    by (unfold in_bounds, len; lia).
  split; [exact Hin |]. split; [exact Hat |].
  destruct Hin as [Hx Hy]. unfold is_valid_position.
  destruct (Z.leb_spec 0 (Z.of_nat i)); [| lia].
  destruct (Z.ltb_spec (Z.of_nat i) (len (current_level m))); [| lia]. simpl.
  rewrite subscript_first by lia. simpl.
  destruct (Z.leb_spec 0 (Z.of_nat j)); [| lia].
  destruct (Z.ltb_spec (Z.of_nat j) (len (hd [] (current_level m)))); [| lia]. simpl.
  rewrite subscript_of_nat. unfold code_at in Hat.
  destruct (nth_error (current_level m) i) as [row |]; [| discriminate]. simpl.
  rewrite subscript_of_nat, Hat. reflexivity.
Qed.

Section Further.

Variable T : Z.
Hypothesis T_pos : 0 < T.
Variable truthy : Maze -> bool.

(** ** The pixel check against the cell check *)

Lemma check_collision_as_cell_check (m : Maze) (px py : Z) :
  rectangular (current_level m) ->
  in_bounds (current_level m) (py / T) (px / T) ->
  check_collision T m px py = is_valid_position m (py / T, px / T).
Proof.
  intros Hrect Hin.
  destruct (check_collision_in_bounds T m px py Hrect Hin) as (code & Hat & Hcheck).
  destruct (is_valid_position_in_bounds m _ _ Hrect Hin) as (code' & Hat' & Hvalid).
  rewrite Hcheck, Hvalid. congruence.
Qed.

(** X3: on a rectangular grid, for pixels whose cell (by integer division)
    lies inside the grid, [check_collision] gives the answer that
    [is_valid_position] gives for that cell. *)
Theorem check_collision_agrees (m : Maze) (px py : Z) :
  rectangular (current_level m) ->
  in_bounds (current_level m) (py / T) (px / T) ->
  check_collision T m px py = is_valid_position m (py / T, px / T).
Proof. exact (check_collision_as_cell_check m px py). Qed.

Lemma subscript_too_small {A : Type} (l : list A) (i : Z) :
  i < - len l -> subscript l i = Err IndexError.
Proof.
  intros Hi. unfold subscript.
  destruct (Z.ltb_spec i 0); [| unfold len in *; lia].
  destruct (Z.leb_spec 0 (len l + i)); [lia |]. reflexivity.
Qed.

(** X4: [check_collision] has no bounds test of its own.  For pixels above
    the grid by at most the grid's height it answers for the pixels one grid
    height further down (the row index counts from the last row); for pixels
    further up, or below the last row, it raises [IndexError]. *)
Theorem check_collision_outside_rows (m : Maze) (x y : Z) :
  (- len (current_level m) <= y / T < 0 ->
   check_collision T m x y =
   check_collision T m x (y + len (current_level m) * T)) /\
  (y / T < - len (current_level m) \/ len (current_level m) <= y / T ->
   check_collision T m x y = Err IndexError).
Proof.
  split.
  - apply check_collision_wraps. exact T_pos.
  - intros [Hlow | Hhigh].
    + unfold check_collision.
      rewrite (subscript_too_small (current_level m) (y / T) Hlow). reflexivity.
    + apply check_collision_raises. exact Hhigh.
Qed.

(** ** One key press *)

(** X5: whatever the keys, the maze and the outcome, one call of
    [move_player] leaves the maze and the solvers alone and moves by at most
    one unit step of one of the four directions: the cached cell stays or
    moves by that step, and the pixel position stays or moves by the same
    step times the tile size.  It never moves diagonally or further. *)
Theorem move_player_one_step (s : PlayerController) (d : Keys) :
  maze (final (move_player T s d)) = maze s /\
  dfs_solver (final (move_player T s d)) = dfs_solver s /\
  bfs_solver (final (move_player T s d)) = bfs_solver s /\
  dijkstra_solver (final (move_player T s d)) = dijkstra_solver s /\
  astar_solver (final (move_player T s d)) = astar_solver s /\
  exists dr dc,
    unit_or_null dr dc /\
    (player_position (final (move_player T s d)) = player_position s \/
     player_position (final (move_player T s d)) =
       (fst (player_position s) + dr, snd (player_position s) + dc)) /\
    (xy (final (move_player T s d)) = xy s \/
     xy (final (move_player T s d)) = (fst (xy s) + dc * T, snd (xy s) + dr * T)).
Proof.
  assert (Hcommit : forall nx ny np dr dc,
             unit_or_null dr dc ->
             np = (fst (player_position s) + dr, snd (player_position s) + dc) ->
             (nx, ny) = (fst (xy s) + dc * T, snd (xy s) + dr * T) ->
             let r := commit_move T s nx ny np in
             maze (final r) = maze s /\
             dfs_solver (final r) = dfs_solver s /\
             bfs_solver (final r) = bfs_solver s /\
             dijkstra_solver (final r) = dijkstra_solver s /\
             astar_solver (final r) = astar_solver s /\
             exists dr dc,
               unit_or_null dr dc /\
               (player_position (final r) = player_position s \/
                player_position (final r) =
                  (fst (player_position s) + dr, snd (player_position s) + dc)) /\
               (xy (final r) = xy s \/
                xy (final r) = (fst (xy s) + dc * T, snd (xy s) + dr * T))).
  { intros nx ny np dr dc Hunit Hnp Hxy r. subst r. unfold commit_move.
    destruct (is_valid_position (maze s) np) as [valid | e];
      [| repeat split; exists dr, dc; auto].
    assert (Hm : maze (if valid then with_player_position s np else s) = maze s)
      by (destruct valid; reflexivity).
    rewrite Hm.
    destruct (check_collision T (maze s) nx ny) as [free | e];
      destruct valid; try destruct free;
      repeat split; exists dr, dc; (split; [exact Hunit |]);
      unfold xy in *; cbn [final returned raised with_player_xy with_player_position
                           player player_position Player.x Player.y];
      rewrite <- ?Hxy, <- ?Hnp; auto. }
  unfold move_player, prospective.
  destruct (player_position s) as [r c] eqn:Hpos.
  unfold xy in Hcommit. cbn [fst snd] in Hcommit.
  destruct (K_UP d).
  { apply (Hcommit _ _ _ (-1) 0); [unfold unit_or_null; lia | f_equal; lia
                                  | f_equal; lia]. }
  destruct (K_DOWN d).
  { apply (Hcommit _ _ _ 1 0); [unfold unit_or_null; lia | f_equal; lia
                               | f_equal; lia]. }
  destruct (K_LEFT d).
  { apply (Hcommit _ _ _ 0 (-1)); [unfold unit_or_null; lia | f_equal; lia
                                  | f_equal; lia]. }
  destruct (K_RIGHT d).
  { apply (Hcommit _ _ _ 0 1); [unfold unit_or_null; lia | f_equal; lia
                               | f_equal; lia]. }
  repeat split. exists 0, 0. unfold unit_or_null. auto.
Qed.

(** ** Replay: what it leaves alone and where it ends *)

Lemma same_but_player_refl (s : PlayerController) : same_but_player s s.
Proof. repeat split. Qed.

Lemma outcome_andthen (r : Run) (k : PlayerController -> Run) :
  outcome (andthen r k) = Returned ->
  outcome r = Returned /\ outcome (k (final r)) = Returned /\
  final (andthen r k) = final (k (final r)) /\
  trace (andthen r k) = trace r ++ trace (k (final r)).
Proof.
  unfold andthen. destruct (outcome r) eqn:Hr;
    try (intros Habs; rewrite Hr in Habs; discriminate Habs).
  simpl. intros Hk. repeat split; try reflexivity. exact Hk.
Qed.

Lemma approach_frame (fuel : nat) (path : Path) (tx ty : Z) (s : PlayerController) :
  same_but_player s (final (approach T fuel path tx ty s)).
Proof.
  revert s. induction fuel as [| fuel IH]; intros s; rewrite approach_eq; cbv zeta.
  - destruct (negb _ || negb _); apply same_but_player_refl.
  - destruct (negb _ || negb _); [| apply same_but_player_refl].
    destruct (r <- subscript (current_level (maze s)) _ ;; subscript r _)
      as [code | e]; [| apply same_but_player_refl].
    destruct (negb (code =? 1)); [| apply IH].
    cbn [final emit].
    match goal with
    | |- same_but_player s (final (approach T fuel path tx ty ?s1)) =>
        destruct (IH s1) as (H1 & H2 & H3 & H4 & H5 & H6)
    end.
    repeat split; assumption.
Qed.

Lemma follow_from_frame (fuel : nat) (path todo : Path) (s : PlayerController) :
  same_but_player s (final (follow_from T fuel path todo s)).
Proof.
  revert s. induction todo as [| [goal_y goal_x] todo IH]; intros s; simpl.
  - apply same_but_player_refl.
  - pose proof (approach_frame fuel path (goal_x * T) (goal_y * T) s) as Hfirst.
    unfold andthen.
    destruct (outcome (approach T fuel path (goal_x * T) (goal_y * T) s));
      try exact Hfirst.
    cbn [final emit].
    destruct Hfirst as (H1 & H2 & H3 & H4 & H5 & H6).
    destruct (IH (final (approach T fuel path (goal_x * T) (goal_y * T) s)))
      as (J1 & J2 & J3 & J4 & J5 & J6).
    repeat split; congruence.
Qed.

(** X6: [follow_path] writes the player's pixel position and nothing else.
    Whatever the path, and whether the run returns, raises or keeps looping,
    the cached cell [player_position], the maze and the four solvers are as
    before; so the cached cell does not follow the agent along the path. *)
Theorem follow_path_frame (fuel : nat) (path : Path) (s : PlayerController) :
  same_but_player s (final (follow_path T fuel path s)).
Proof. exact (follow_from_frame fuel path path s). Qed.

Lemma approach_lands (fuel : nat) (path : Path) (tx ty : Z) (s : PlayerController) :
  outcome (approach T fuel path tx ty s) = Returned ->
  xy (final (approach T fuel path tx ty s)) = (tx, ty).
Proof.
  revert s. induction fuel as [| fuel IH]; intros s; rewrite approach_eq; cbv zeta.
  - destruct (Z.eqb_spec (Player.x (player s)) tx) as [Hx | Hx];
      destruct (Z.eqb_spec (Player.y (player s)) ty) as [Hy | Hy];
      simpl; try discriminate.
    intros _. unfold xy. congruence.
  - destruct (Z.eqb_spec (Player.x (player s)) tx) as [Hx | Hx];
      destruct (Z.eqb_spec (Player.y (player s)) ty) as [Hy | Hy];
      cbn [negb orb];
      try (intros _; unfold xy; cbn [final returned]; congruence);
      (destruct (r <- subscript (current_level (maze s)) _ ;; subscript r _)
         as [code | e]; [| discriminate]);
      (destruct (negb (code =? 1)); [cbn [outcome final emit] |]); apply IH.
Qed.

Lemma follow_from_lands (fuel : nat) (path todo : Path) (s : PlayerController) :
  outcome (follow_from T fuel path todo s) = Returned ->
  xy (final (follow_from T fuel path todo s)) =
    endpoint (xy s) (map (pixel_of_cell T) todo).
Proof.
  revert s. induction todo as [| [goal_y goal_x] todo IH]; intros s; simpl.
  - reflexivity.
  - intros Hret. apply outcome_andthen in Hret.
    destruct Hret as (Hfirst & Hrest & Hfinal & _).
    rewrite Hfinal, (IH _ Hrest), (approach_lands _ _ _ _ _ Hfirst).
    reflexivity.
Qed.

(** X7: when [follow_path] returns, the agent stands exactly on the pixel
    position of the last cell of the path (and where it was, for the empty
    path). *)
Theorem follow_path_lands (fuel : nat) (path : Path) (s : PlayerController) :
  outcome (follow_path T fuel path s) = Returned ->
  xy (final (follow_path T fuel path s)) =
    endpoint (xy s) (map (pixel_of_cell T) path).
Proof. exact (follow_from_lands fuel path path s). Qed.

Lemma approach_aligned (fuel : nat) (path : Path) (tx ty : Z) (s : PlayerController) :
  outcome (approach T fuel path tx ty s) = Returned ->
  (T | tx - Player.x (player s)) /\ (T | ty - Player.y (player s)).
Proof.
  revert s. induction fuel as [| fuel IH]; intros s; rewrite approach_eq; cbv zeta.
  - destruct (Z.eqb_spec (Player.x (player s)) tx) as [Hx | Hx];
      destruct (Z.eqb_spec (Player.y (player s)) ty) as [Hy | Hy];
      simpl; try discriminate.
    intros _. split; exists 0; lia.
  - destruct (negb (Player.x (player s) =? tx) || negb (Player.y (player s) =? ty))
      eqn:Hcond.
    + destruct (r <- subscript (current_level (maze s)) _ ;; subscript r _)
        as [code | e]; [| discriminate].
      destruct (negb (code =? 1)); [cbn [outcome emit] | apply IH].
      intros Hret. destruct (IH _ Hret) as [[kx Hkx] [ky Hky]].
      cbn [player with_player_xy Player.x Player.y] in Hkx, Hky.
      split.
      * exists (kx + direction_toward tx (Player.x (player s))).
        rewrite Z.mul_add_distr_r. lia.
      * exists (ky + direction_toward ty (Player.y (player s))).
        rewrite Z.mul_add_distr_r. lia.
    + intros _. apply orb_false_iff in Hcond. destruct Hcond as [Hx Hy].
      apply negb_false_iff, Z.eqb_eq in Hx. apply negb_false_iff, Z.eqb_eq in Hy.
      split; exists 0; lia.
Qed.

(** X8: the replay moves in whole tiles only.  If [follow_path] returns on a
    path that is not empty, the pixel coordinates the agent started from were
    multiples of the tile size; from any other start the run never returns. *)
Theorem follow_path_needs_alignment (fuel : nat) (path : Path) (s : PlayerController) :
  path <> [] ->
  outcome (follow_path T fuel path s) = Returned ->
  (T | Player.x (player s)) /\ (T | Player.y (player s)).
Proof.
  unfold follow_path. destruct path as [| [goal_y goal_x] rest]; [congruence |].
  intros _ Hret. simpl in Hret. apply outcome_andthen in Hret.
  destruct Hret as (Hfirst & _).
  destruct (approach_aligned _ _ _ _ _ Hfirst) as [[kx Hkx] [ky Hky]].
  split; [exists (goal_x - kx) | exists (goal_y - ky)];
    rewrite Z.mul_sub_distr_r; lia.
Qed.

(** ** Replay of a path of neighbouring walkable cells *)

Lemma follow_from_neighbours (g : Grid) (fuel : nat) (whole : Path) :
  rectangular g ->
  forall (todo : Path) (s : PlayerController) (c0 : Cell),
    current_level (maze s) = g ->
    xy s = (snd c0 * T, fst c0 * T) ->
    Forall (walkable g) todo ->
    chain neighbours c0 todo ->
    outcome (follow_from T (S fuel) whole todo s) = Returned /\
    xy (final (follow_from T (S fuel) whole todo s)) =
      pixel_of_cell T (endpoint c0 todo) /\
    moves (trace (follow_from T (S fuel) whole todo s)) =
      map (pixel_of_cell T) (hops c0 todo).
Proof.
  intros Hrect.
  induction todo as [| [gy gx] todo IH]; intros s [r c] Hg Hxy Hwalk Hchain;
    cbn [fst snd] in Hxy.
  - repeat split. exact Hxy.
  - inversion Hwalk as [| ? ? Hw Hwalk']; subst.
    destruct Hchain as [Hnb Hchain'].
    unfold neighbours in Hnb. cbn [fst snd] in Hnb.
    change (follow_from T (S fuel) whole ((gy, gx) :: todo) s)
      with (andthen (approach T (S fuel) whole (gx * T) (gy * T) s)
                    (follow_from T (S fuel) whole todo)).
    change (endpoint (r, c) ((gy, gx) :: todo)) with (endpoint (gy, gx) todo).
    cbn [hops fst snd].
    destruct ((r =? gy) && (c =? gx)) eqn:Heq.
    + apply andb_true_iff in Heq. destruct Heq as [Hr Hc].
      apply Z.eqb_eq in Hr, Hc.
      rewrite (approach_tile_done T (S fuel) whole s c r gx gy Hxy Hc Hr).
      unfold andthen. cbn [outcome returned final trace emit app].
      apply (IH s (gy, gx)); try assumption; try reflexivity.
      cbn [fst snd]. rewrite Hxy. subst. reflexivity.
    + assert (Hne : c <> gx \/ r <> gy).
      { apply andb_false_iff in Heq.
        destruct Heq as [H | H]; apply Z.eqb_neq in H; auto. }
      destruct Hw as [Hin (code & Hat & Hcode)]. cbn [fst snd] in Hin, Hat.
      destruct (lookup_in_bounds _ gy gx Hrect Hin)
        as (row & code' & Hrow & Hcol & Hat').
      assert (code' = code) by congruence. subst code'.
      assert (Ha : c + Z.sgn (gx - c) = gx) by lia.
      assert (Hb : r + Z.sgn (gy - r) = gy) by lia.
      rewrite (approach_tile_commit T T_pos fuel whole s c r gx gy Hxy code Hne);
        [| rewrite Ha, Hb, Hrow; exact Hcol | exact Hcode].
      rewrite Ha, Hb.
      rewrite (approach_tile_done T fuel whole
                 (with_player_xy s (gx * T) (gy * T)) gx gy gx gy
                 eq_refl eq_refl eq_refl).
      unfold andthen. cbn [outcome returned final trace emit app].
      destruct (IH (with_player_xy s (gx * T) (gy * T)) (gy, gx))
        as (Hout & Hend & Hmoves); try assumption; try reflexivity.
      split; [exact Hout |]. split; [exact Hend |].
      cbn [moves map]. rewrite Hmoves. reflexivity.
Qed.

Lemma replay_neighbours
    (fuel : nat) (path : Path) (s : PlayerController) (c0 : Cell) :
  rectangular (current_level (maze s)) ->
  xy s = pixel_of_cell T c0 ->
  Forall (walkable (current_level (maze s))) path ->
  chain neighbours c0 path ->
  outcome (follow_path T (S fuel) path s) = Returned /\
  xy (final (follow_path T (S fuel) path s)) = pixel_of_cell T (endpoint c0 path) /\
  moves (trace (follow_path T (S fuel) path s)) =
    map (pixel_of_cell T) (hops c0 path).
Proof.
  intros Hrect Hxy Hwalk Hchain.
  apply (follow_from_neighbours (current_level (maze s)) fuel path Hrect
           path s c0); try assumption; try reflexivity.
  destruct c0 as [r c]. exact Hxy.
Qed.

(** X9: a path of walkable cells in which each cell is the same as, or next
    to, its predecessor (the first one with respect to the agent's cell) is
    replayed to the end on a rectangular grid: [follow_path] returns, every
    loop taking at most one iteration, the agent ends on the last cell, and
    the positions it was given on the way are exactly those of the cells
    that differ from their predecessor, in order. *)
Theorem follow_path_neighbours
    (fuel : nat) (path : Path) (s : PlayerController) (c0 : Cell) :
  rectangular (current_level (maze s)) ->
  xy s = pixel_of_cell T c0 ->
  Forall (walkable (current_level (maze s))) path ->
  chain neighbours c0 path ->
  outcome (follow_path T (S fuel) path s) = Returned /\
  xy (final (follow_path T (S fuel) path s)) = pixel_of_cell T (endpoint c0 path) /\
  moves (trace (follow_path T (S fuel) path s)) =
    map (pixel_of_cell T) (hops c0 path).
Proof. exact (replay_neighbours fuel path s c0). Qed.

(** ** Key presses in a maze with a walled border *)

Lemma prospective_in_sync (s : PlayerController) (d : Keys) (nx ny : Z) (np : Cell) :
  xy s = (snd (player_position s) * T, fst (player_position s) * T) ->
  prospective T s d = Some (nx, ny, np) ->
  nx = snd np * T /\ ny = fst np * T /\
  Z.abs (fst np - fst (player_position s)) <= 1 /\
  Z.abs (snd np - snd (player_position s)) <= 1.
Proof.
  unfold prospective, xy. destruct (player_position s) as [r c].
  cbn [fst snd]. intros Hxy. injection Hxy as Hx Hy. rewrite Hx, Hy.
  destruct (K_UP d); [| destruct (K_DOWN d); [| destruct (K_LEFT d);
    [| destruct (K_RIGHT d); [| discriminate]]]];
    intros Heq; injection Heq as <- <- <-; cbn [fst snd];
    repeat split; lia.
Qed.

Lemma move_player_keeps_sync (s : PlayerController) (d : Keys) :
  rectangular (current_level (maze s)) ->
  border_walled (current_level (maze s)) ->
  in_sync T s ->
  outcome (move_player T s d) = Returned /\
  in_sync T (final (move_player T s d)) /\
  maze (final (move_player T s d)) = maze s.
Proof.
  intros Hrect Hborder [Hxy Hwalk]. unfold move_player.
  destruct (prospective T s d) as [[[nx ny] np] |] eqn:Hpro;
    [| split; [reflexivity | split; [split; assumption | reflexivity]]].
  destruct (prospective_in_sync s d nx ny np Hxy Hpro) as (-> & -> & Hdr & Hdc).
  assert (Hin : in_bounds (current_level (maze s)) (fst np) (snd np)).
  { destruct Hwalk as [Hhere (code & Hat & Hcode)].
    assert (Hinner : ~ (fst (player_position s) = 0 \/
                        fst (player_position s) = len (current_level (maze s)) - 1 \/
                        snd (player_position s) = 0 \/
                        snd (player_position s) =
                          len (hd [] (current_level (maze s))) - 1)).
    { intros Hrim. pose proof (Hborder _ _ Hhere Hrim) as Hwall. congruence. }
    unfold in_bounds in *. lia. }
  assert (Hin' : in_bounds (current_level (maze s))
                           (fst np * T / T) (snd np * T / T))
    by (rewrite !(div_tile T T_pos); exact Hin).
  pose proof (check_collision_as_cell_check (maze s) (snd np * T) (fst np * T)
                Hrect Hin')
    as Hcheck.
  rewrite !(div_tile T T_pos) in Hcheck.
  replace (fst np, snd np) with np in Hcheck by (destruct np; reflexivity).
  destruct (proj1 (is_valid_position_decides (maze s) np Hrect)) as [Hto _].
  unfold commit_move.
  destruct (is_valid_position (maze s) np) as [[|] | e] eqn:Hvalid.
  - cbn [maze with_player_position]. rewrite Hcheck.
    split; [reflexivity |]. split; [| reflexivity].
    split; [reflexivity |]. exact (Hto eq_refl).
  - rewrite Hcheck.
    split; [reflexivity | split; [split; assumption | reflexivity]].
  - destruct (is_valid_position_total (maze s) np Hrect) as (b & Hb). congruence.
Qed.

Lemma play_sync_invariant (s : PlayerController) (inputs : list Keys) :
  rectangular (current_level (maze s)) ->
  border_walled (current_level (maze s)) ->
  in_sync T s ->
  outcome (play T s inputs) = Returned /\
  in_sync T (final (play T s inputs)) /\
  maze (final (play T s inputs)) = maze s.
Proof.
  revert s. induction inputs as [| d inputs IH]; intros s Hrect Hborder Hsync.
  - split; [reflexivity | split; [exact Hsync | reflexivity]].
  - destruct (move_player_keeps_sync s d Hrect Hborder Hsync)
      as (Hout & Hsync' & Hmaze).
    simpl. unfold andthen. rewrite Hout. cbn [outcome final emit].
    rewrite <- Hmaze in Hrect, Hborder.
    destruct (IH _ Hrect Hborder Hsync') as (Hout'' & Hsync'' & Hmaze'').
    split; [exact Hout'' | split; [exact Hsync'' | congruence]].
Qed.

(** X10: in a rectangular maze whose rim consists of walls, a controller
    whose pixel position is the one of its cached cell, on a walkable cell,
    stays that way under any sequence of [move_player] calls: no call
    raises, and after each of them the pixel position is again the one of the
    cached cell, which is walkable.  The two positions cannot drift apart
    through key presses alone. *)
Theorem play_keeps_sync (s : PlayerController) (inputs : list Keys) :
  rectangular (current_level (maze s)) ->
  border_walled (current_level (maze s)) ->
  in_sync T s ->
  outcome (play T s inputs) = Returned /\
  in_sync T (final (play T s inputs)) /\
  maze (final (play T s inputs)) = maze s.
Proof. exact (play_sync_invariant s inputs). Qed.

(** X17: a game started the way the code starts it stays consistent.  The
    controller built by [__init__] caches cell (1, 1) and
    [reset_player_position] puts the player on the pixels of that cell; if
    that cell is walkable in a rectangular maze with a walled rim, then after
    construction, reset and any sequence of [move_player] calls no call has
    raised and the pixel position is the one of the cached, walkable cell. *)
Theorem new_game_stays_in_sync
    (p : Player.t) (m : Maze) (d : DFS) (b : BFS) (inputs : list Keys) :
  rectangular (current_level m) ->
  border_walled (current_level m) ->
  walkable (current_level m) (1, 1) ->
  outcome (play T (reset_player_position T (init p m d b)) inputs) = Returned /\
  in_sync T (final (play T (reset_player_position T (init p m d b)) inputs)).
Proof.
  intros Hrect Hborder Hwalk.
  destruct (play_sync_invariant (reset_player_position T (init p m d b)) inputs)
    as (Hout & Hsync & _); try assumption.
  - split; [| exact Hwalk].
    unfold xy, reset_player_position. cbn [player with_player_xy Player.x Player.y
                                           player_position init fst snd].
    f_equal; lia.
  - split; assumption.
Qed.

(** X15: without a wall on the rim the pixel check runs off the grid.  On a
    rectangular grid, with the pixel position on the cached cell, pressing
    down (and not up) on the last row, or right (and no other key) on the
    last column, makes [move_player] raise [IndexError]; the cell check had
    rejected the move, so the controller is unchanged. *)
Theorem move_player_off_the_edge_raises (s : PlayerController) (d : Keys) :
  rectangular (current_level (maze s)) ->
  in_sync T s ->
  (K_UP d = false -> K_DOWN d = true ->
   fst (player_position s) = len (current_level (maze s)) - 1 ->
   move_player T s d = raised IndexError s) /\
  (K_UP d = false -> K_DOWN d = false -> K_LEFT d = false -> K_RIGHT d = true ->
   snd (player_position s) = len (hd [] (current_level (maze s))) - 1 ->
   move_player T s d = raised IndexError s).
Proof.
  intros Hrect [Hxy [Hin _]].
  unfold xy in Hxy. injection Hxy as Hx Hy.
  destruct (player_position s) as [r c] eqn:Hpos. cbn [fst snd] in *.
  split.
  - intros Hup Hdown Hlast.
    unfold move_player, prospective. rewrite Hpos, Hup, Hdown. unfold commit_move.
    rewrite is_valid_position_out_of_bounds by (unfold in_bounds; lia).
    rewrite check_collision_raises; [reflexivity |].
    rewrite Hy. replace (r * T + T) with ((r + 1) * T) by lia.
    rewrite (div_tile T T_pos). lia.
  - intros Hup Hdown Hleft Hright Hlast.
    unfold move_player, prospective.
    rewrite Hpos, Hup, Hdown, Hleft, Hright. unfold commit_move.
    rewrite is_valid_position_out_of_bounds by (unfold in_bounds; lia).
    unfold check_collision. rewrite Hx, Hy.
    replace (c * T + T) with ((c + 1) * T) by lia.
    rewrite !(div_tile T T_pos).
    destruct (subscript_in_range (current_level (maze s)) r (proj1 Hin))
      as (row & Hrow & Hnth).
    rewrite Hrow. cbn [bind].
    assert (Hlen : len row = len (hd [] (current_level (maze s)))).
    { unfold len. f_equal. apply Hrect. exact (nth_error_In _ _ Hnth). }
    rewrite subscript_too_large by lia. reflexivity.
Qed.

(** ** Moving to the goal: errors, missing paths, and what stays *)

(** X11: [move_to_goal_dfs] and [move_to_goal_bfs] do not test their solver.
    On a rectangular grid that has a goal marker, with the solver set to
    [None], they raise [AttributeError]; nothing was moved or drawn. *)
Theorem move_to_goal_without_solver_raises
    (fuel : nat) (s : PlayerController) (i j : nat) :
  rectangular (current_level (maze s)) ->
  code_at (current_level (maze s)) i j = Some 3 ->
  (dfs_solver s = None -> move_to_goal_dfs T fuel s = raised AttributeError s) /\
  (bfs_solver s = None -> move_to_goal_bfs T fuel s = raised AttributeError s).
Proof.
  intros Hrect Hgoal.
  destruct (find_goal_position_first (maze s) Hrect) as ([c |] & Hfind & Hfirst).
  - split; intros Hnone; unfold move_to_goal_dfs, move_to_goal_bfs;
      rewrite Hfind, Hnone; reflexivity.
  - exfalso. exact (Hfirst i j Hgoal).
Qed.

(** X12: a search that finds no path leaves the agent where it is.  On a
    rectangular grid, when the search call that the operation makes (for the
    current level, the agent's start cell and the goal that
    [find_goal_position] returned) answers [False] for DFS or BFS, or hands
    back no path or an empty one for Dijkstra, and likewise when the A*
    solver hands back no path or an empty one, the operation returns normally
    with the controller unchanged and nothing drawn. *)
Theorem move_to_goal_no_path (fuel : nat) (s : PlayerController) :
  rectangular (current_level (maze s)) ->
  (forall solver,
      dfs_solver s = Some solver ->
      (forall goal, find_goal_position (maze s) = Ok (Some goal) ->
                    dfs solver (current_level (maze s)) (start_position T s) goal
                    = false) ->
      move_to_goal_dfs T fuel s = returned s) /\
  (forall solver,
      bfs_solver s = Some solver ->
      (forall goal, find_goal_position (maze s) = Ok (Some goal) ->
                    bfs solver (current_level (maze s)) (start_position T s) goal
                    = false) ->
      move_to_goal_bfs T fuel s = returned s) /\
  (forall solver,
      dijkstra_solver s = Some solver ->
      (forall goal, find_goal_position (maze s) = Ok (Some goal) ->
                    dijkstra_find_shortest_path solver (start_position T s) goal
                    = None \/
                    dijkstra_find_shortest_path solver (start_position T s) goal
                    = Some []) ->
      move_to_goal_dijkstra T fuel s = returned s) /\
  (forall solver,
      astar_solver s = Some solver ->
      truthy (maze s) = true ->
      (astar_find_shortest_path solver (maze s) = None \/
       astar_find_shortest_path solver (maze s) = Some []) ->
      move_to_goal_astar T truthy fuel s = returned s).
Proof.
  intros Hrect.
  destruct (find_goal_position_first (maze s) Hrect) as (found & Hfind & _).
  repeat split; intros solver Hsolver.
  - intros Hnone. unfold move_to_goal_dfs. rewrite Hfind, Hsolver.
    destruct found as [goal |]; [rewrite (Hnone goal Hfind) |]; reflexivity.
  - intros Hnone. unfold move_to_goal_bfs. rewrite Hfind, Hsolver.
    destruct found as [goal |]; [rewrite (Hnone goal Hfind) |]; reflexivity.
  - intros Hnone. unfold move_to_goal_dijkstra. rewrite Hfind, Hsolver.
    destruct found as [goal |]; [| reflexivity].
    destruct (Hnone goal Hfind) as [-> | ->]; reflexivity.
  - intros Htruthy Hnone. unfold move_to_goal_astar. rewrite Hsolver, Htruthy.
    cbn [negb].
    destruct (astar_find_goal_position solver (maze s)); [| reflexivity].
    destruct Hnone as [-> | ->]; reflexivity.
Qed.

(** X13: none of the four [move_to_goal] operations updates the cached
    cell, and the agent moves through replay steps only.  Whatever the
    solvers answer and however the run ends, [player_position] is as before,
    and the pixel position at the end is the last one assigned by a replay
    step of the run, or the old one when the run made no step. *)
Theorem move_to_goal_frame (st : Strategy) (fuel : nat) (s : PlayerController) :
  player_position (final (move_to_goal T truthy st fuel s)) = player_position s /\
  xy (final (move_to_goal T truthy st fuel s)) =
    endpoint (xy s) (moves (trace (move_to_goal T truthy st fuel s))).
Proof.
  assert (Hreplay : forall path,
             player_position (final (follow_path T fuel path s)) = player_position s /\
             xy (final (follow_path T fuel path s)) =
               endpoint (xy s) (moves (trace (follow_path T fuel path s)))).
  { intros path. split.
    - apply (follow_from_frame fuel path path s).
    - apply (follow_from_walks T fuel path path path s (incl_refl path)). }
  destruct st; unfold move_to_goal.
  - unfold move_to_goal_dfs.
    destruct (find_goal_position (maze s)) as [[c |] | e];
      try (split; reflexivity).
    destruct (dfs_solver s) as [solver |]; try (split; reflexivity).
    destruct (dfs solver _ _ _); [apply Hreplay | split; reflexivity].
  - unfold move_to_goal_bfs.
    destruct (find_goal_position (maze s)) as [[c |] | e];
      try (split; reflexivity).
    destruct (bfs_solver s) as [solver |]; try (split; reflexivity).
    destruct (bfs solver _ _ _); [apply Hreplay | split; reflexivity].
  - unfold move_to_goal_dijkstra.
    destruct (dijkstra_solver s) as [solver |]; try (split; reflexivity).
    destruct (find_goal_position (maze s)) as [[c |] | e];
      try (split; reflexivity).
    destruct (truthy_path _); [apply Hreplay | split; reflexivity].
  - unfold move_to_goal_astar.
    destruct (astar_solver s) as [solver |]; try (split; reflexivity).
    destruct (negb (truthy (maze s))); try (split; reflexivity).
    destruct (astar_find_goal_position solver (maze s));
      try (split; reflexivity).
    destruct (truthy_path _); [apply Hreplay | split; reflexivity].
Qed.

(** X16: with a sound solver the agent arrives.  On a rectangular grid, with
    the agent's pixel position on a tile corner, if the BFS search answers
    [True] or the Dijkstra solver hands back a non-empty path, and that path
    consists of walkable cells, each the same as or next to its predecessor
    (the first with respect to the start cell), then the operation returns
    and the agent stands on the last cell of the path.  The cached cell is
    still the old one. *)
Theorem move_to_goal_arrives (fuel : nat) (s : PlayerController) (goal : Cell) :
  rectangular (current_level (maze s)) ->
  xy s = pixel_of_cell T (start_position T s) ->
  find_goal_position (maze s) = Ok (Some goal) ->
  (forall solver path,
      bfs_solver s = Some solver ->
      bfs solver (current_level (maze s)) (start_position T s) goal = true ->
      bfs_get_path solver (current_level (maze s)) (start_position T s) goal = path ->
      Forall (walkable (current_level (maze s))) path ->
      chain neighbours (start_position T s) path ->
      outcome (move_to_goal_bfs T (S fuel) s) = Returned /\
      xy (final (move_to_goal_bfs T (S fuel) s)) =
        pixel_of_cell T (endpoint (start_position T s) path) /\
      player_position (final (move_to_goal_bfs T (S fuel) s)) = player_position s) /\
  (forall solver c path,
      dijkstra_solver s = Some solver ->
      dijkstra_find_shortest_path solver (start_position T s) goal = Some (c :: path) ->
      Forall (walkable (current_level (maze s))) (c :: path) ->
      chain neighbours (start_position T s) (c :: path) ->
      outcome (move_to_goal_dijkstra T (S fuel) s) = Returned /\
      xy (final (move_to_goal_dijkstra T (S fuel) s)) =
        pixel_of_cell T (endpoint (start_position T s) (c :: path)) /\
      player_position (final (move_to_goal_dijkstra T (S fuel) s)) =
        player_position s).
Proof.
  intros Hrect Hxy Hfind. split.
  - intros solver path Hsolver Hfound Hpath Hwalk Hchain.
    unfold move_to_goal_bfs. rewrite Hfind, Hsolver, Hfound, Hpath.
    destruct (replay_neighbours fuel path s _ Hrect Hxy Hwalk Hchain)
      as (Hout & Hend & _).
    split; [exact Hout |]. split; [exact Hend |].
    apply (follow_from_frame (S fuel) path path s).
  - intros solver c path Hsolver Hpath Hwalk Hchain.
    unfold move_to_goal_dijkstra. rewrite Hsolver, Hfind, Hpath.
    cbn [truthy_path].
    destruct (replay_neighbours fuel (c :: path) s _ Hrect Hxy Hwalk Hchain)
      as (Hout & Hend & _).
    split; [exact Hout |]. split; [exact Hend |].
    apply (follow_from_frame (S fuel) (c :: path) (c :: path) s).
Qed.

(** ** The path overlay *)

(** X14: [draw_path] draws one rectangle per position of the path, in path
    order; each is green, one tile wide and high, its corner is the pixel
    position that [follow_path] targets for that cell, and dividing the
    corner by the tile size gives the cell back. *)
Theorem draw_path_rectangles (path : Path) :
  List.length (draw_path T path) = List.length path /\
  forall n position,
    nth_error path n = Some position ->
    exists rect,
      nth_error (draw_path T path) n = Some rect /\
      rect_color rect = (0, 255, 0) /\
      (rect_left rect, rect_top rect) = pixel_of_cell T position /\
      rect_width rect = T /\ rect_height rect = T /\
      cell_of_pixel T (rect_left rect, rect_top rect) = position.
Proof.
  split; [apply length_map |].
  intros n [row col] Hnth. unfold draw_path.
  eexists. split; [apply map_nth_error; exact Hnth |].
  cbn [rect_color rect_left rect_top rect_width rect_height fst snd
       pixel_of_cell cell_of_pixel].
  rewrite !(div_tile T T_pos). repeat split.
Qed.

End Further.

(** * Concrete runs *)

Lemma rectangular_open3 : rectangular (current_level open3).
Proof.
  intros row Hin. simpl in Hin.
  destruct Hin as [<- | [<- | [<- | []]]]; reflexivity.
Qed.

Lemma rectangular_walled : rectangular (current_level walled).
Proof.
  intros row Hin. simpl in Hin.
  destruct Hin as [<- | [<- | [<- | []]]]; reflexivity.
Qed.

Lemma rectangular_goal_maze : rectangular (current_level goal_maze).
Proof.
  intros row Hin. simpl in Hin.
  destruct Hin as [<- | [<- | [<- | []]]]; reflexivity.
Qed.

Lemma goal_maze_single_marker (i j : nat) :
  code_at (current_level goal_maze) i j = Some 3 -> i = 2%nat /\ j = 5%nat.
Proof.
  intros H.
  destruct i as [| [| [| i]]];
    [| | | destruct i; discriminate H];
    destruct j as [| [| [| [| [| [| j]]]]]];
    try discriminate H; try (split; reflexivity);
    destruct j; discriminate H.
Qed.

(** ** The guards of [move_player] *)

(** For no positive tile size does [move_player] wait for both checks: in
    the maze [walled], a new controller (cached cell (1, 1)) whose player
    stands on cell (1, 3) takes the left key, the cell check accepts (1, 0),
    the pixel check finds the wall at (1, 2), and the cached cell changes. *)
Lemma commits_only_when_both_pass_fails :
  ~ exists tile, 0 < tile /\ commits_only_when_both_pass tile.
Proof.
  intros (tile & Hpos & Hclaim).
  destruct (desync_move tile Hpos) as (Hrun & Hpro & Hcheck).
  destruct (Hclaim _ _ _ _ _ Hpro) as [_ Hfree].
  - rewrite Hrun. intros Heq.
    apply (f_equal player_position) in Heq. discriminate Heq.
  - change (maze (standing tile walled (1, 3))) with walled in Hfree.
    rewrite Hcheck in Hfree. discriminate Hfree.
Qed.

(** The same run at tile size 32: the cell is replaced, the pixels stay. *)
Lemma move_player_independent_guards_witness :
  exists valid free,
    is_valid_position walled (1, 0) = Ok valid /\
    check_collision 32 walled 64 32 = Ok free /\
    move_player 32 (standing 32 walled (1, 3)) only_left =
      returned (let s1 := if valid
                          then with_player_position (standing 32 walled (1, 3)) (1, 0)
                          else standing 32 walled (1, 3) in
                if free then with_player_xy s1 64 32 else s1) /\
    (player_position (final (move_player 32 (standing 32 walled (1, 3)) only_left))
       <> player_position (standing 32 walled (1, 3)) <-> valid = true) /\
    (player (final (move_player 32 (standing 32 walled (1, 3)) only_left))
       <> player (standing 32 walled (1, 3)) <-> free = true).
Proof.
  apply (move_player_independent_guards 32 ltac:(lia)
           (standing 32 walled (1, 3)) only_left 64 32 (1, 0)).
  - exact rectangular_walled.
  - reflexivity.
  - unfold in_bounds. change (32 / 32) with 1. change (64 / 32) with 2.
    unfold len. simpl. lia.
Defined.

(** ** Replay *)

(** For no positive tile size are all replay steps along one axis: from
    cell (1, 1) of the open maze, the path [(2, 2)] is replayed in one step
    that changes both coordinates. *)
Lemma replay_never_diagonal_fails :
  ~ exists tile, 0 < tile /\ replay_never_diagonal tile.
Proof.
  intros (tile & Hpos & Hclaim).
  specialize (Hclaim 1%nat [(2, 2)] (standing tile open3 (1, 1))).
  rewrite (diagonal_replay tile Hpos) in Hclaim.
  destruct Hclaim as [Hstep _].
  change (axis_step tile (1 * tile, 1 * tile) (2 * tile, 2 * tile)) in Hstep.
  destruct Hstep as [[H _] | [H _]]; cbn [fst snd] in H; lia.
Qed.

(** At tile size 32 the blocked replay is still looping after a thousand
    iterations. *)
Lemma follow_path_blocked_diverges_witness :
  0 < 32 /\
  follow_path 32 1000 [(1, 3)] (standing 32 walled (1, 1)) =
  diverged (standing 32 walled (1, 1)).
Proof.
  split; [lia | apply (follow_path_blocked_diverges 32); lia].
Defined.

(** At tile size 32: the pixels (32, -32) are accepted and (96, 32) raise. *)
Lemma lookups_outside_grid_witness :
  0 < 32 /\
  check_collision 32 open3 (1 * 32) (-1 * 32) = Ok true /\
  check_collision 32 open3 (3 * 32) (1 * 32) = Err IndexError.
Proof.
  split; [lia |].
  destruct (lookups_outside_grid 32 ltac:(lia) 0) as (_ & Hwrap & Hraise & _).
  split; [exact Hwrap | exact Hraise].
Defined.

(** ** Moving to the goal *)

(** With the Dijkstra solver unset nothing is printed, so an unset solver is
    not always reported. *)
Lemma unset_or_goalless_is_reported_fails :
  ~ exists tile truthy, unset_or_goalless_is_reported tile truthy.
Proof.
  intros (tile & truthy & Hclaim).
  destruct (Hclaim ByDijkstra 0%nat (standing tile open3 (1, 1))) as [Hunset _].
  destruct (Hunset eq_refl) as [(msg & Hin) _].
  exact Hin.
Qed.

(** A new controller has no Dijkstra solver: the operation returns at once. *)
Lemma move_to_goal_guards_witness :
  dijkstra_solver (standing 32 open3 (1, 1)) = None /\
  move_to_goal_dijkstra 32 7 (standing 32 open3 (1, 1)) =
    returned (standing 32 open3 (1, 1)).
Proof.
  split; [reflexivity |].
  destruct (move_to_goal_guards 32 (fun _ => true) 7 (standing 32 open3 (1, 1)))
    as [Hunset _].
  apply Hunset. reflexivity.
Defined.

(** ** Goal lookup, conversions, reset and keys *)

(** The only marker of [goal_maze] is at row 2, column 5. *)
Lemma find_goal_position_row_major_witness :
  find_goal_position goal_maze = Ok (Some (2, 5)).
Proof.
  destruct (find_goal_position_row_major goal_maze rectangular_goal_maze)
    as (_ & _ & _ & _ & Honly).
  apply Honly; [reflexivity | exact goal_maze_single_marker].
Defined.

(** Cell (2, 5) at tile size 32. *)
Lemma cell_pixel_roundtrip_witness :
  0 < 32 /\ cell_of_pixel 32 (pixel_of_cell 32 (2, 5)) = (2, 5).
Proof.
  split; [lia |].
  exact (proj1 (cell_pixel_roundtrip 32 ltac:(lia) (2, 5))).
Defined.

(** After a reset, a controller whose cached cell is (2, 1) still has that
    cell, which is not the cell under the spawn pixels. *)
Lemma reset_player_position_frame_witness :
  player_position (synced 32 open3 (2, 1)) <> (1, 1) /\
  player_position (reset_player_position 32 (synced 32 open3 (2, 1))) <>
    start_position 32 (reset_player_position 32 (synced 32 open3 (2, 1))).
Proof.
  assert (Hne : player_position (synced 32 open3 (2, 1)) <> (1, 1))
    by (simpl; discriminate).
  split; [exact Hne |].
  destruct (reset_player_position_frame 32 ltac:(lia) (synced 32 open3 (2, 1)))
    as (_ & _ & _ & _ & _ & _ & Hdrift).
  exact (Hdrift Hne).
Defined.

(** With all four keys down the run is the one of the up key. *)
Lemma move_player_priority_witness :
  K_UP all_keys = true /\
  move_player 32 (synced 32 open3 (1, 1)) all_keys =
  move_player 32 (synced 32 open3 (1, 1)) only_up.
Proof.
  split; [reflexivity |].
  destruct (move_player_priority 32 (synced 32 open3 (1, 1)) all_keys) as [Hup _].
  apply Hup. reflexivity.
Defined.

(** ** Walkability and the goal *)

Ltac walkable_here :=
  split; [unfold in_bounds, len; simpl; lia
         | eexists; split; [reflexivity | lia]].

Ltac all_walkable :=
  repeat (apply Forall_cons; [walkable_here |]); apply Forall_nil.

Lemma rectangular_ring : rectangular (current_level ring).
Proof.
  intros row Hin. simpl in Hin.
  destruct Hin as [<- | [<- | [<- | [<- | []]]]]; reflexivity.
Qed.

Lemma border_walled_ring : border_walled (current_level ring).
Proof.
  intros r c [Hr Hc] Hrim. unfold len in *. simpl in Hr, Hc, Hrim.
  assert (Hrs : r = 0 \/ r = 1 \/ r = 2 \/ r = 3) by lia.
  assert (Hcs : c = 0 \/ c = 1 \/ c = 2 \/ c = 3) by lia.
  destruct Hrs as [-> | [-> | [-> | ->]]];
    destruct Hcs as [-> | [-> | [-> | ->]]];
    try reflexivity; exfalso; lia.
Qed.

(** Cell (1, 1) of [walled] is accepted, hence walkable. *)
Lemma is_valid_position_walkable_witness :
  walkable (current_level walled) (1, 1).
Proof.
  exact (proj1 (proj1 (is_valid_position_walkable walled (1, 1) rectangular_walled))
               eq_refl).
Defined.

(** The goal found in [goal_maze] is a valid position. *)
Lemma find_goal_position_sound_witness :
  is_valid_position goal_maze (2, 5) = Ok true.
Proof.
  exact (proj2 (proj2 (find_goal_position_sound goal_maze (2, 5) eq_refl))).
Defined.

(** Pixels (70, 40) at tile size 32 lie in cell (1, 2) of [walled]. *)
Lemma check_collision_agrees_witness :
  check_collision 32 walled 70 40 = is_valid_position walled (40 / 32, 70 / 32).
Proof.
  apply (check_collision_agrees 32 walled 70 40 rectangular_walled).
  unfold in_bounds. change (40 / 32) with 1. change (70 / 32) with 2.
  unfold len. simpl. lia.
Defined.

(** One row above the 3 x 3 grid the answer is the one for the last row. *)
Lemma check_collision_outside_rows_witness :
  0 < 32 /\
  check_collision 32 open3 32 (-32) =
  check_collision 32 open3 32 (-32 + len (current_level open3) * 32).
Proof.
  split; [lia |].
  apply (proj1 (check_collision_outside_rows 32 ltac:(lia) open3 32 (-32))).
  change (-32 / 32) with (-1). unfold len. simpl. lia.
Defined.

(** ** Replay *)

(** One step to the right in the open maze. *)
Lemma follow_path_lands_witness :
  outcome (follow_path 32 1 [(1, 2)] (standing 32 open3 (1, 1))) = Returned /\
  xy (final (follow_path 32 1 [(1, 2)] (standing 32 open3 (1, 1)))) =
    endpoint (xy (standing 32 open3 (1, 1))) (map (pixel_of_cell 32) [(1, 2)]).
Proof.
  split; [reflexivity |].
  apply (follow_path_lands 32 1 [(1, 2)] (standing 32 open3 (1, 1))). reflexivity.
Defined.

Lemma follow_path_needs_alignment_witness :
  (32 | Player.x (player (standing 32 open3 (1, 1)))) /\
  (32 | Player.y (player (standing 32 open3 (1, 1)))).
Proof.
  apply (follow_path_needs_alignment 32 1 [(1, 2)] (standing 32 open3 (1, 1)));
    [discriminate | reflexivity].
Defined.

(** Right, then down, with the start cell first in the path. *)
Lemma follow_path_neighbours_witness :
  outcome (follow_path 32 1 [(1, 1); (1, 2); (2, 2)] (standing 32 open3 (1, 1))) =
    Returned /\
  xy (final (follow_path 32 1 [(1, 1); (1, 2); (2, 2)] (standing 32 open3 (1, 1)))) =
    pixel_of_cell 32 (endpoint (1, 1) [(1, 1); (1, 2); (2, 2)]) /\
  moves (trace (follow_path 32 1 [(1, 1); (1, 2); (2, 2)]
                  (standing 32 open3 (1, 1)))) =
    map (pixel_of_cell 32) (hops (1, 1) [(1, 1); (1, 2); (2, 2)]).
Proof.
  apply (follow_path_neighbours 32 ltac:(lia) 0 [(1, 1); (1, 2); (2, 2)]
           (standing 32 open3 (1, 1)) (1, 1)).
  - exact rectangular_open3.
  - reflexivity.
  - all_walkable.
  - unfold neighbours. simpl. lia.
Defined.

(** ** Key presses *)

(** Four key states in the walled ring. *)
Lemma play_keeps_sync_witness :
  outcome (play 32 (synced 32 ring (1, 1)) [only_up; only_right; only_down; all_keys]) =
    Returned /\
  in_sync 32 (final (play 32 (synced 32 ring (1, 1))
                       [only_up; only_right; only_down; all_keys])) /\
  maze (final (play 32 (synced 32 ring (1, 1))
                 [only_up; only_right; only_down; all_keys])) =
    maze (synced 32 ring (1, 1)).
Proof.
  apply (play_keeps_sync 32 ltac:(lia)).
  - exact rectangular_ring.
  - exact border_walled_ring.
  - split; [reflexivity | walkable_here].
Defined.

(** Down on the last row of the open maze. *)
Lemma move_player_off_the_edge_raises_witness :
  move_player 32 (synced 32 open3 (2, 1)) only_down =
  raised IndexError (synced 32 open3 (2, 1)).
Proof.
  destruct (move_player_off_the_edge_raises 32 ltac:(lia)
              (synced 32 open3 (2, 1)) only_down rectangular_open3)
    as [Hdown _].
  - split; [reflexivity | walkable_here].
  - apply Hdown; reflexivity.
Defined.

(** ** Moving to the goal *)

Lemma move_to_goal_without_solver_raises_witness :
  move_to_goal_dfs 32 3 (set_dfs_solver (standing 32 goal_maze (0, 0)) None) =
  raised AttributeError (set_dfs_solver (standing 32 goal_maze (0, 0)) None).
Proof.
  exact (proj1 (move_to_goal_without_solver_raises 32 3
                  (set_dfs_solver (standing 32 goal_maze (0, 0)) None) 2 5
                  rectangular_goal_maze eq_refl)
               eq_refl).
Defined.

Lemma move_to_goal_no_path_witness :
  move_to_goal_dfs 32 3 (standing 32 goal_maze (0, 0)) =
  returned (standing 32 goal_maze (0, 0)).
Proof.
  destruct (move_to_goal_no_path 32 (fun _ => true) 3
              (standing 32 goal_maze (0, 0)) rectangular_goal_maze)
    as [Hdfs _].
  apply (Hdfs idle_dfs); [reflexivity | intros goal Hgoal; reflexivity].
Defined.

(** Two steps along the last row of [goal_maze] to the goal. *)
Lemma move_to_goal_arrives_witness :
  outcome (move_to_goal_dijkstra 32 1
             (set_dijkstra_solver (standing 32 goal_maze (2, 3))
                (Some (fixed_dijkstra [(2, 4); (2, 5)])))) = Returned /\
  xy (final (move_to_goal_dijkstra 32 1
               (set_dijkstra_solver (standing 32 goal_maze (2, 3))
                  (Some (fixed_dijkstra [(2, 4); (2, 5)]))))) =
    pixel_of_cell 32 (2, 5).
Proof.
  destruct (move_to_goal_arrives 32 ltac:(lia) 0
              (set_dijkstra_solver (standing 32 goal_maze (2, 3))
                 (Some (fixed_dijkstra [(2, 4); (2, 5)])))
              (2, 5) rectangular_goal_maze eq_refl eq_refl)
    as [_ Hdijkstra].
  destruct (Hdijkstra (fixed_dijkstra [(2, 4); (2, 5)]) (2, 4) [(2, 5)]
              eq_refl eq_refl)
    as (Hout & Hend & _).
  - all_walkable.
  - unfold neighbours, start_position. simpl. lia.
  - split; [exact Hout | exact Hend].
Defined.

(** ** The path overlay *)

Lemma draw_path_rectangles_witness :
  0 < 32 /\ List.length (draw_path 32 [(2, 5)]) = List.length [(2, 5)].
Proof.
  split; [lia |].
  exact (proj1 (draw_path_rectangles 32 ltac:(lia) [(2, 5)])).
Defined.

(** A new game in the walled ring. *)
Lemma new_game_stays_in_sync_witness :
  outcome (play 32 (reset_player_position 32
                      (init (Player.mk 0 0) ring idle_dfs idle_bfs))
                [only_down; only_right; all_keys]) = Returned /\
  in_sync 32 (final (play 32 (reset_player_position 32
                                (init (Player.mk 0 0) ring idle_dfs idle_bfs))
                          [only_down; only_right; all_keys])).
Proof.
  apply (new_game_stays_in_sync 32 ltac:(lia)).
  - exact rectangular_ring.
  - exact border_walled_ring.
  - walkable_here.
Defined.
